(** * oid4vc-core: the Result container, the error normalizer and the
      DynamoDB key-value wrapper

    A shallow embedding of [lib/utils/errorUtils.ts], [lib/utils/result.ts]
    and [lib/dynamodb/DynamoDB.ts].

    The TypeScript code is untyped at run time, so the embedding works on
    JavaScript values: primitives and references into a heap of objects.
    Object identity is the heap address; a [new] expression appends to the
    heap.  Code that may throw lives in a small state-and-exception monad
    over the heap.

    Modelled fragment of the host language: data objects only (no accessor
    properties, no proxies, no boxed primitives); numbers are NaN, the two
    infinities and the integers; strings are sequences of one-byte code
    units; every callback terminates and every awaited promise is settled.

    The serializer [JSON.stringify] is transcribed for plain data.  It does
    not call [toJSON] methods, prints every integer in plain decimal and has
    no bound on the nesting, where the host calls the method, switches to
    exponent notation from 1e21 on (and holds integers exactly only up to
    2^53 - 1) and overflows its call stack on very deep data.  So what is
    stated of the text it gives is stated for values from which no [toJSON]
    method can be reached ([Graph.plain_data], [Data.denotes]), for safe
    integers ([Data.safe_integer]) and for nesting up to
    [Data.nesting_limit]; and what is stated of the faults that leave the
    wrappers is stated relative to what [convertToError] does on the value
    that was thrown, whatever makes it raise. *)

From Stdlib Require Import ZArith String Ascii List DecimalString Lia.
From Stdlib Require HexadecimalString Strings.Byte DecimalN DecimalPos.
From stdpp Require Import gmap strings list sorting.

Open Scope string_scope.
Open Scope list_scope.

(** ** JavaScript values, heap and completions *)

Module JS.

Inductive number :=
| NaN
| Infinity (negative : bool)
| Int (z : Z).

Abbreviation addr := nat.

Inductive value :=
| VUndefined
| VNull
| VBool (b : bool)
| VNumber (n : number)
| VString (s : string)
| VBigInt (z : Z)
| VSymbol (description : string)
| VRef (a : addr).

(** State of a settled promise. *)
Inductive settled :=
| Fulfilled (v : value)
| Rejected (reason : value).

(** Heap objects.  [props] lists the own enumerable string-keyed properties
    in creation order.  An [Error] keeps its [message] apart because the
    property is not enumerable.  A [Result] has the two public fields its
    constructor declares, [value] then [error]. *)
Inductive obj :=
| OPlain (props : list (string * value))
| OArray (elems : list value)
| OError (message : string) (props : list (string * value))
| OResult (value error : value)
| OPromise (state : settled)
| OFunction.

Abbreviation heap := (list obj).

(** ToBoolean *)
Definition truthy (v : value) : bool :=
  match v with
  | VUndefined | VNull => false
  | VBool b => b
  | VNumber NaN => false
  | VNumber (Infinity _) => true
  | VNumber (Int z) => negb (z =? 0)%Z
  | VString s => negb (String.eqb s EmptyString)
  | VBigInt z => negb (z =? 0)%Z
  | VSymbol _ => true
  | VRef _ => true
  end.

(** [x === undefined] *)
Definition is_undefined (v : value) : bool :=
  match v with VUndefined => true | _ => false end.

(** Completion of a statement or call: normal with a result, or abrupt with
    the thrown value. *)
Inductive completion (A : Type) :=
| Normal (a : A)
| Throw (e : value).
Arguments Normal {A} a.
Arguments Throw {A} e.

Definition M (A : Type) : Type := heap -> completion A * heap.

Definition ret {A} (a : A) : M A := fun h => (Normal a, h).

Definition bind {A B} (m : M A) (k : A -> M B) : M B :=
  fun h =>
    match m h with
    | (Normal a, h') => k a h'
    | (Throw e, h') => (Throw e, h')
    end.

Definition throw {A} (e : value) : M A := fun h => (Throw e, h).

(** [try { body } catch (e) { handler }] *)
Definition try_catch {A} (body : M A) (handler : value -> M A) : M A :=
  fun h =>
    match body h with
    | (Normal a, h') => (Normal a, h')
    | (Throw e, h') => handler e h'
    end.

(** [new]: the fresh object gets the next address. *)
Definition alloc (o : obj) : M value :=
  fun h => (Normal (VRef (List.length h)), h ++ [o]).

Definition load (v : value) (h : heap) : option obj :=
  match v with
  | VRef a => h !! a
  | _ => None
  end.

(** A callable: arguments in, completion out. *)
Definition jsfun := list value -> M value.

(** [v instanceof Error] *)
Definition instanceof_Error (v : value) (h : heap) : bool :=
  match load v h with
  | Some (OError _ _) => true
  | _ => false
  end.

(** [v instanceof Result] *)
Definition instanceof_Result (v : value) (h : heap) : bool :=
  match load v h with
  | Some (OResult _ _) => true
  | _ => false
  end.

(** [new Error(message)]: an absent message leaves the empty default. *)
Definition new_Error (message : option string) : M value :=
  alloc (OError (default EmptyString message) []).

Definition new_TypeError (message : string) : M value :=
  alloc (OError message []).

(** *** Promises *)

(** Resolving with a promise adopts its state. *)
Definition resolve (v : value) (h : heap) : settled :=
  match load v h with
  | Some (OPromise st) => st
  | _ => Fulfilled v
  end.

(** Call of an [async] function with the given body: never throws, returns
    a promise settled by the body's completion. *)
Definition async (body : M value) : M value :=
  fun h =>
    match body h with
    | (Normal v, h') => alloc (OPromise (resolve v h')) h'
    | (Throw e, h') => alloc (OPromise (Rejected e)) h'
    end.

(** [await v] *)
Definition await (v : value) : M value :=
  fun h =>
    match resolve v h with
    | Fulfilled x => (Normal x, h)
    | Rejected e => (Throw e, h)
    end.

End JS.

Import JS.

Notation "'do' x <- m ; k" := (bind m (fun x => k))
  (at level 10, x name, m at level 100, k at level 200).

(** ** The host's [JSON.stringify]

    Transcribed from ECMA-262 (SerializeJSONProperty, SerializeJSONObject,
    SerializeJSONArray, QuoteJSONString, OrdinaryOwnPropertyKeys) for the
    call [JSON.stringify(value)] without replacer or indentation. *)

Module JSON.

Definition DQUOTE : ascii := "034"%char.
Definition BACKSLASH : ascii := "092"%char.

Definition hex_digit (n : nat) : ascii :=
  ascii_of_nat (if (n <? 10)%nat then (48 + n)%nat else (87 + n)%nat).

(** One code unit of QuoteJSONString. *)
Definition quote_unit (c : ascii) : string :=
  let n := nat_of_ascii c in
  if (n =? 8)%nat then String BACKSLASH "b"
  else if (n =? 9)%nat then String BACKSLASH "t"
  else if (n =? 10)%nat then String BACKSLASH "n"
  else if (n =? 12)%nat then String BACKSLASH "f"
  else if (n =? 13)%nat then String BACKSLASH "r"
  else if (n =? 34)%nat then String BACKSLASH (String DQUOTE EmptyString)
  else if (n =? 92)%nat then String BACKSLASH (String BACKSLASH EmptyString)
  else if (n <? 32)%nat then
    String BACKSLASH
      ("u00" +:+ String (hex_digit (n / 16)%nat) (String (hex_digit (n mod 16)%nat) EmptyString))
  else String c EmptyString.

Fixpoint quote_units (s : string) : string :=
  match s with
  | EmptyString => EmptyString
  | String c s' => quote_unit c +:+ quote_units s'
  end.

Definition QuoteJSONString (s : string) : string :=
  String DQUOTE (quote_units s +:+ String DQUOTE EmptyString).

Definition is_finite (n : number) : bool :=
  match n with Int _ => true | _ => false end.

(** Number::toString, radix 10 *)
Definition Number_toString (n : number) : string :=
  match n with
  | NaN => "NaN"
  | Infinity false => "Infinity"
  | Infinity true => "-Infinity"
  | Int z => NilZero.string_of_int (Z.to_int z)
  end.

(** A property key is an array index when it is the canonical decimal
    numeral of an integer below 2^32 - 1. *)
Definition array_index (P : string) : option N :=
  match NilZero.uint_of_string P with
  | Some d =>
      let n := N.of_uint d in
      if (n <? 4294967295)%N && String.eqb (NilZero.string_of_uint (N.to_uint n)) P
      then Some n else None
  | None => None
  end.

Fixpoint insert_by_index (n : N) (p : string * value)
    (l : list (N * (string * value))) : list (N * (string * value)) :=
  match l with
  | [] => [(n, p)]
  | (m, q) :: l' =>
      if (n <? m)%N then (n, p) :: l else (m, q) :: insert_by_index n p l'
  end.

Fixpoint index_keyed (props : list (string * value)) : list (N * (string * value)) :=
  match props with
  | [] => []
  | (P, v) :: props' =>
      match array_index P with
      | Some n => insert_by_index n (P, v) (index_keyed props')
      | None => index_keyed props'
      end
  end.

Definition string_keyed (props : list (string * value)) : list (string * value) :=
  filter (fun p => array_index p.1 = None) props.

(** OrdinaryOwnPropertyKeys: array indices in ascending numeric order, then
    the other string keys in creation order. *)
Definition OrdinaryOwnPropertyKeys (props : list (string * value)) : list (string * value) :=
  map snd (index_keyed props) ++ string_keyed props.

(** EnumerableOwnProperties of a non-array object. *)
Definition EnumerableOwnProperties (o : obj) : list (string * value) :=
  match o with
  | OPlain props => OrdinaryOwnPropertyKeys props
  | OError _ props => OrdinaryOwnPropertyKeys props
  | OResult v e => [("value", v); ("error", e)]
  | OArray _ | OPromise _ | OFunction => []
  end.

Inductive abrupt :=
| Circular
| BigIntValue
| OutOfFuel.

(** Outcome of a serialization step: a result, or the reason it stopped. *)
Inductive outcome (A : Type) :=
| Done (a : A)
| Abrupt (r : abrupt).
Arguments Done {A} a.
Arguments Abrupt {A} r.

(** The member loop of SerializeJSONObject: properties whose serialization
    is undefined are left out. *)
Fixpoint object_members (ser : value -> outcome (option string))
    (K : list (string * value)) : outcome (list string) :=
  match K with
  | [] => Done []
  | (P, v) :: K' =>
      match ser v with
      | Abrupt r => Abrupt r
      | Done strP =>
          match object_members ser K' with
          | Abrupt r => Abrupt r
          | Done partial =>
              Done (match strP with
                    | Some str => (QuoteJSONString P +:+ ":" +:+ str) :: partial
                    | None => partial
                    end)
          end
      end
  end.

(** The element loop of SerializeJSONArray: an undefined serialization is
    written as null. *)
Fixpoint array_elements (ser : value -> outcome (option string))
    (elems : list value) : outcome (list string) :=
  match elems with
  | [] => Done []
  | v :: elems' =>
      match ser v with
      | Abrupt r => Abrupt r
      | Done strP =>
          match array_elements ser elems' with
          | Abrupt r => Abrupt r
          | Done partial => Done (default "null" strP :: partial)
          end
      end
  end.

Definition SerializeJSONObject (ser : value -> outcome (option string))
    (o : obj) : outcome (option string) :=
  match object_members ser (EnumerableOwnProperties o) with
  | Abrupt r => Abrupt r
  | Done partial => Done (Some ("{" +:+ String.concat "," partial +:+ "}"))
  end.

Definition SerializeJSONArray (ser : value -> outcome (option string))
    (elems : list value) : outcome (option string) :=
  match array_elements ser elems with
  | Abrupt r => Abrupt r
  | Done partial => Done (Some ("[" +:+ String.concat "," partial +:+ "]"))
  end.

(** One level of serialization, by the kind of object. *)
Definition serialize_level (ser : value -> outcome (option string))
    (o : obj) : outcome (option string) :=
  match o with
  | OArray elems => SerializeJSONArray ser elems
  | _ => SerializeJSONObject ser o
  end.

(** [stack] is the list of objects being serialized, innermost first; the
    recursion descends one object per unit of [fuel]. *)
Fixpoint SerializeJSONProperty (fuel : nat) (h : heap) (stack : list addr)
    (v : value) : outcome (option string) :=
  match v with
  | VUndefined => Done None
  | VNull => Done (Some "null")
  | VBool true => Done (Some "true")
  | VBool false => Done (Some "false")
  | VString s => Done (Some (QuoteJSONString s))
  | VNumber n => Done (Some (if is_finite n then Number_toString n else "null"))
  | VBigInt _ => Abrupt BigIntValue
  | VSymbol _ => Done None
  | VRef a =>
      match h !! a with
      | None => Done None
      | Some OFunction => Done None
      | Some o =>
          if bool_decide (a ∈ stack) then Abrupt Circular
          else
            match fuel with
            | O => Abrupt OutOfFuel
            | S fuel' =>
                serialize_level (SerializeJSONProperty fuel' h (a :: stack)) o
            end
      end
  end.

(** The message of the TypeError; engines word it in their own way. *)
Definition abrupt_message (r : abrupt) : string :=
  match r with
  | Circular => "Converting circular structure to JSON"
  | BigIntValue => "Do not know how to serialize a BigInt"
  | OutOfFuel => "Maximum call stack size exceeded"
  end.

(** [JSON.stringify(value)]: [None] stands for the result [undefined].  The
    stack can hold every object of the heap at most once, so one unit of
    fuel per heap object and one to spare is enough (see
    [stringify_fuel_enough]). *)
Definition stringify (v : value) : M (option string) :=
  fun h =>
    match SerializeJSONProperty (S (List.length h)) h [] v with
    | Done r => (Normal r, h)
    | Abrupt r => (do e <- new_TypeError (abrupt_message r); throw e) h
    end.

End JSON.

(** ** lib/utils/errorUtils.ts *)

Module errorUtils.

Definition get_heap : M heap := fun h => (Normal h, h).

(** [getErrorMessage]: the declared return type is [string], but the value
    comes from [JSON.stringify] in the last branch, so it is a string or
    [undefined] ([None]). *)
Definition getErrorMessage (e : value) : M (option string) :=
  match e with
  | VUndefined => ret (Some "undefined")
  | VNull => ret (Some "null")
  | VString s => ret (Some s)
  | _ =>
      do h <- get_heap;
      match load e h with
      | Some (OError message _) => ret (Some message)
      | _ => JSON.stringify e
      end
  end.

Definition convertToError (e : value) : M value :=
  do h <- get_heap;
  if instanceof_Error e h then ret e
  else
    do message <- getErrorMessage e;
    new_Error message.

End errorUtils.

(** ** lib/utils/result.ts *)

Module Result.

Import errorUtils.

(** The constructor's parameter properties are stored first, then the body
    runs its check. *)
Definition constructor (value error : value) : M JS.value :=
  do this <- alloc (OResult value error);
  if truthy value && truthy error then
    do e <- new_Error (Some "Result cannot be both success and failure");
    throw e
  else ret this.

Definition success (value : value) : M JS.value :=
  constructor value VUndefined.

Definition failure (error : value) : M JS.value :=
  constructor VUndefined error.

(** [this.value] and [this.error]; a property the receiver does not have
    reads as [undefined]. *)
Definition get_value (this : value) : M value :=
  do h <- get_heap;
  match load this h with
  | Some (OResult v _) => ret v
  | _ => ret VUndefined
  end.

Definition get_error (this : value) : M value :=
  do h <- get_heap;
  match load this h with
  | Some (OResult _ e) => ret e
  | _ => ret VUndefined
  end.

Definition isSuccess (this : value) : M bool :=
  do error <- get_error this;
  ret (is_undefined error).

Definition isFailure (this : value) : M bool :=
  do s <- isSuccess this;
  ret (negb s).

Definition getOrThrow (this : value) : M value :=
  do s <- isSuccess this;
  if s then get_value this
  else
    do error <- get_error this;
    throw error.

Definition getOrDefault (this : value) (defaultValue : value) : M value :=
  do s <- isSuccess this;
  if s then get_value this
  else ret defaultValue.

Definition getOrElse (this : value) (transfer : jsfun) : M value :=
  do s <- isSuccess this;
  if s then get_value this
  else
    do error <- get_error this;
    transfer [error].

Definition onSuccess (this : value) (f : jsfun) : M value :=
  do s <- isSuccess this;
  do _ <- (if s then do value <- get_value this; f [value] else ret VUndefined);
  ret this.

Definition onFailure (this : value) (f : jsfun) : M value :=
  do b <- isFailure this;
  do _ <- (if b then do error <- get_error this; f [error] else ret VUndefined);
  ret this.

Definition runCatching (f : jsfun) (args : list value) : M value :=
  try_catch
    (do value <- f args;
     do h <- get_heap;
     if instanceof_Result value h then ret value
     else success value)
    (fun e =>
       do error <- convertToError e;
       failure error).

Definition recover (this : value) (transform : jsfun) : M value :=
  do b <- isFailure this;
  if b then
    runCatching (fun _ => do error <- get_error this; transform [error]) []
  else ret this.

Definition runAsyncCatching (f : jsfun) (args : list value) : M value :=
  async
    (try_catch
       (do promise <- f args;
        do value <- await promise;
        do h <- get_heap;
        if instanceof_Result value h then ret value
        else success value)
       (fun e =>
          do error <- convertToError e;
          failure error)).

Definition recoverAsync (this : value) (transform : jsfun) : M value :=
  async
    (do b <- isFailure this;
     if b then
       runAsyncCatching (fun _ => do error <- get_error this; transform [error]) []
     else ret this).

End Result.

(** ** lib/dynamodb/DynamoDB.ts *)

Module DynamoDB.

Record DynamoDBItem := {
  key : string;
  value : string;
  expiresAt : option Z;
}.

Record PutOptions := {
  expirationTtl : option Z;
}.

Inductive command :=
| GetCommand (TableName : string) (Key : string)
| PutCommand (TableName : string) (Item : DynamoDBItem)
| DeleteCommand (TableName : string) (Key : string).

(** What [client.send] resolves to; only [Item] is read. *)
Record output := {
  Item : option DynamoDBItem;
}.

(** Settlement of the promise a method or the client returns. *)
Inductive promised (E A : Type) :=
| Resolves (a : A)
| Rejects (error : E).
Arguments Resolves {E A} a.
Arguments Rejects {E A} error.

(** Truthiness of a string and of a number. *)
Definition nonempty (s : string) : bool := negb (String.eqb s EmptyString).
Definition nonzero (z : Z) : bool := negb (z =? 0)%Z.

Section Client.

(** The document client is an external collaborator: [send] takes a command
    and the state of the service, and settles with an output or a fault. *)
Variables E S : Type.
Variable send : command -> S -> promised E output * S.

(** What the methods can touch: the service behind the client, the console
    and the clock ([Date.now()], in milliseconds). *)
Record world := {
  service : S;
  console : list (string * E);
  now : Z;
}.

Definition console_error (label : string) (error : E) (w : world) : world :=
  {| service := service w; console := console w ++ [(label, error)]; now := now w |}.

Definition with_service (s : S) (w : world) : world :=
  {| service := s; console := console w; now := now w |}.

(** [item?.value ? item.value : null], with [None] for [null] *)
Definition get (tableName key : string) (w : world) : promised E (option string) * world :=
  match send (GetCommand tableName key) (service w) with
  | (Resolves result, s) =>
      let item := Item result in
      (Resolves
         (match item with
          | Some i => if nonempty (value i) then Some (value i) else None
          | None => None
          end),
       with_service s w)
  | (Rejects error, s) =>
      (Rejects error, console_error "Error in DynamoDB get:" error (with_service s w))
  end.

Definition put (tableName key value : string) (options : option PutOptions)
    (w : world) : promised E unit * world :=
  let ttl :=
    match options with
    | Some o =>
        match expirationTtl o with
        | Some t => if nonzero t then Some t else None
        | None => None
        end
    | None => None
    end in
  let item :=
    {| key := key; value := value;
       expiresAt := (fun t => now w / 1000 + t)%Z <$> ttl |} in
  match send (PutCommand tableName item) (service w) with
  | (Resolves _, s) => (Resolves tt, with_service s w)
  | (Rejects error, s) =>
      (Rejects error, console_error "Error in DynamoDB put:" error (with_service s w))
  end.

Definition delete (tableName key : string) (w : world) : promised E unit * world :=
  match send (DeleteCommand tableName key) (service w) with
  | (Resolves _, s) => (Resolves tt, with_service s w)
  | (Rejects error, s) =>
      (Rejects error, console_error "Error in DynamoDB delete:" error (with_service s w))
  end.

End Client.

Arguments service {E S} w.
Arguments console {E S} w.
Arguments now {E S} w.
Arguments get {E S} send tableName key w.
Arguments put {E S} send tableName key value options w.
Arguments delete {E S} send tableName key w.

(** A reference client: tables held in memory, keyed by table name and item
    key, that never fails.  It stands for the external service when a
    statement speaks of what was stored before. *)
Definition table_send {E : Type} (c : command)
    (t : gmap (string * string) DynamoDBItem)
    : promised E output * gmap (string * string) DynamoDBItem :=
  match c with
  | GetCommand tn k => (Resolves {| Item := t !! (tn, k) |}, t)
  | PutCommand tn i => (Resolves {| Item := None |}, <[(tn, key i) := i]> t)
  | DeleteCommand tn k => (Resolves {| Item := None |}, base.delete (tn, k) t)
  end.

End DynamoDB.

(** ** Notions used by the statements *)

(** The object graph that [JSON.stringify] walks: the children of an object
    are the values of its enumerable properties, or its elements. *)
Module Graph.

Definition object_children (o : obj) : list value :=
  match o with
  | OArray elems => elems
  | _ => map snd (JSON.EnumerableOwnProperties o)
  end.

Definition children (h : heap) (a : addr) : list value :=
  match h !! a with
  | Some o => object_children o
  | None => []
  end.

Definition edge (h : heap) (a b : addr) : Prop := VRef b ∈ children h a.

(** The objects [JSON.stringify] descends into. *)
Definition serializable (h : heap) (a : addr) : Prop :=
  exists o, h !! a = Some o /\ o <> OFunction.

(** Some object reachable from [a] lies on a cycle. *)
Definition cyclic_from (h : heap) (a : addr) : Prop :=
  exists b, rtc (edge h) a b /\ tc (edge h) b b.

(** Some object reachable from [a] holds a BigInt. *)
Definition bigint_from (h : heap) (a : addr) : Prop :=
  exists b z, rtc (edge h) a b /\ VBigInt z ∈ children h b.

Definition cyclic (h : heap) (v : value) : Prop :=
  match v with
  | VRef a => cyclic_from h a
  | _ => False
  end.

Definition holds_bigint (h : heap) (v : value) : Prop :=
  match v with
  | VBigInt _ => True
  | VRef a => bigint_from h a
  | _ => False
  end.

(** The own enumerable properties of an object, by name. *)
Definition own_properties (o : obj) : list (string * value) :=
  match o with
  | OPlain props | OError _ props => props
  | OResult v e => [("value", v); ("error", e)]
  | OArray _ | OPromise _ | OFunction => []
  end.

(** An object with a callable [toJSON] property.  The host would call it
    and serialize what it returns; the serializer above does not, so what is
    said of the serialization is said of values without such objects. *)
Definition has_toJSON (h : heap) (a : addr) : Prop :=
  exists o f, h !! a = Some o /\
    ("toJSON", VRef f) ∈ own_properties o /\ h !! f = Some OFunction.

(** Plain data: no object the serialization can reach has a [toJSON]
    method. *)
Definition plain_data (h : heap) (v : value) : Prop :=
  match v with
  | VRef a => forall b, rtc (edge h) a b -> ~ has_toJSON h b
  | _ => True
  end.

End Graph.

(** How a call ended. *)
Definition throws {A} (c : completion A * heap) : Prop :=
  match c with
  | (Throw _, _) => True
  | (Normal _, _) => False
  end.

Definition returns {A} (c : completion A * heap) : Prop :=
  match c with
  | (Normal _, _) => True
  | (Throw _, _) => False
  end.

(** A field of a [Result] is populated when it is not [undefined]. *)
Definition populated (v : value) : bool := negb (is_undefined v).

(** The exclusivity invariant on the object a call returned. *)
Definition exclusive (c : completion value * heap) : Prop :=
  match c with
  | (Normal r, h) =>
      match load r h with
      | Some (OResult v e) => xorb (populated v) (populated e) = true
      | _ => False
      end
  | (Throw _, _) => False
  end.

(** The promise a call returned, if it returned one. *)
Definition settlement (c : completion value * heap) : option settled :=
  match c with
  | (Normal p, h) =>
      match load p h with
      | Some (OPromise st) => Some st
      | _ => None
      end
  | (Throw _, _) => None
  end.

(** The deferred value of an async callee: call it, then await. *)
Definition awaited (f : jsfun) (args : list value) : M value :=
  do promise <- f args;
  await promise.



(** ** Compact JSON text, from the words of the specification

    The data a value stands for, as a tree, and its text in compact
    JSON-like form: members and elements in the order listed, separated by
    commas, no white space. *)

Module Data.

#[local] Set Warnings "-register-all".


(** The integers a double holds exactly; they print in plain decimal. *)
Definition safe_integer (z : Z) : Prop :=
  (- 9007199254740991 <= z <= 9007199254740991)%Z.













End Data.

(** ** Concrete heaps and callbacks for the examples *)

Module Examples.

(** [const o = { a: 1 }; o.self = o] *)
Definition circular_heap : heap :=
  [OPlain [("a", VNumber (Int 1)); ("self", VRef 0)]].

Definition circularObj : value := VRef 0.

(** [() => { throw circularObj }] *)
Definition throw_circularObj : jsfun := fun _ => throw circularObj.

(** [async () => { throw circularObj }] *)
Definition reject_circularObj : jsfun := fun _ => async (throw circularObj).

(** [new Error('Something went wrong')] at address 0 *)
Definition error_heap : heap := [OError "Something went wrong" []].

Definition error : value := VRef 0.

(** [Result.failure(error)] at address 1 *)
Definition failure_heap : heap :=
  [OError "Something went wrong" []; OResult VUndefined (VRef 0)].

Definition failed : value := VRef 1.

(** [() => { throw 'plain string' }] *)
Definition throw_string : jsfun := fun _ => throw (VString "plain string").

(** [async () => { throw new Error('x') }] *)
Definition reject_Error_x : jsfun :=
  fun _ => async (do e <- new_Error (Some "x"); throw e).


(** A Failure next to a self-referential object, and a transform that
    throws that object:
    [Result.failure(new Error('Something went wrong'))
       .recover(() => { throw circularObj })] *)
Definition recover_heap : heap :=
  [OError "Something went wrong" [];
   OResult VUndefined (VRef 0);
   OPlain [("a", VNumber (Int 1)); ("self", VRef 2)]].

Definition throw_circular_2 : jsfun := fun _ => throw (VRef 2).

(** [() => 0] *)
Definition return_zero : jsfun := fun _ => ret (VNumber (Int 0)).

(** [Result.success(42)] at address 0 *)
Definition success_heap : heap := [OResult (VNumber (Int 42)) VUndefined].

Definition succeeded : value := VRef 0.

(** [const e = new Error('boom'); e.self = e] *)
Definition circular_error_heap : heap := [OError "boom" [("self", VRef 0)]].

(** [() => {}] as a value, at address 0 *)
Definition function_heap : heap := [OFunction].

(** A table [t] that holds the empty string under the key [k]. *)
Definition empty_value_world
    : DynamoDB.world Empty_set (gmap (string * string) DynamoDB.DynamoDBItem) :=
  {| DynamoDB.service :=
       {[ ("t", "k") :=
            {| DynamoDB.key := "k"; DynamoDB.value := EmptyString;
               DynamoDB.expiresAt := None |} ]};
     DynamoDB.console := [];
     DynamoDB.now := 0 |}.

End Examples.

(** ** [responseToError], the third function of the errorUtils file *)

Module response.

(** The two fields of a fetch [Response] that the function reads. *)
Record Response := {
  status : number;
  statusText : string;
}.

(** The template literal converts [status] with Number::toString. *)
Definition responseToError (response : Response) : M value :=
  let message :=
    "Invalid response with status " +:+ JSON.Number_toString (status response)
      +:+ " " +:+ statusText response in
  new_Error (Some message).

End response.

(** ** lib/crypto/standardCrypto.ts *)

Module standardCrypto.

(** [n.toString(16)] for a non-negative integer *)
Definition toString16 (n : nat) : string :=
  HexadecimalString.NilZero.string_of_uint (Nat.to_hex_uint n).

(** The first [n] code units of [rest] followed by [fill] repeated. *)
Fixpoint fill_to (n : nat) (fill rest : string) : string :=
  match n with
  | O => EmptyString
  | S n' =>
      match rest with
      | String c rest' => String c (fill_to n' fill rest')
      | EmptyString =>
          match fill with
          | String c fill' => String c (fill_to n' fill fill')
          | EmptyString => EmptyString
          end
      end
  end.

(** [s.padStart(targetLength, fill)] *)
Definition padStart (targetLength : nat) (fill s : string) : string :=
  if (String.length s <? targetLength)%nat
  then fill_to (targetLength - String.length s) fill fill +:+ s
  else s.

(** [(b) => b.toString(16).padStart(2, '0')] *)
Definition byteHex (b : Init.Byte.byte) : string :=
  padStart 2 "0" (toString16 (Strings.Byte.to_nat b)).

(** [hashArray.map(...).join('')] *)
Definition hashHex (hashArray : list Init.Byte.byte) : string :=
  String.concat EmptyString (map byteHex hashArray).

(** [sha256Async]: [digest] stands for [crypto.subtle.digest('SHA-256', _)],
    which settles with the hash buffer or with a fault ([inl]). *)
Definition sha256Async {E : Type}
    (digest : list Init.Byte.byte -> E + list Init.Byte.byte)
    (bytes : list Init.Byte.byte) : E + string :=
  match digest bytes with
  | inl fault => inl fault
  | inr hashBuffer => inr (hashHex hashBuffer)
  end.

(** Reading the text back: two hexadecimal digits per byte. *)
Definition digit_value (c : ascii) : option nat :=
  let n := nat_of_ascii c in
  if ((48 <=? n) && (n <=? 57))%nat then Some (n - 48)
  else if ((97 <=? n) && (n <=? 102))%nat then Some (n - 87)
  else None.

Fixpoint parseHex (s : string) : option (list Init.Byte.byte) :=
  match s with
  | EmptyString => Some []
  | String hi (String lo s') =>
      match digit_value hi, digit_value lo, parseHex s' with
      | Some x, Some y, Some bytes =>
          match Strings.Byte.of_nat (16 * x + y) with
          | Some b => Some (b :: bytes)
          | None => None
          end
      | _, _, _ => None
      end
  | String _ EmptyString => None
  end.

End standardCrypto.

(** ** More concrete data for the examples *)

Module MoreExamples.

(** A callback that returns its first argument, and one that throws it. *)
Definition return_arg : jsfun := fun args => ret (default VUndefined (head args)).
Definition throw_arg : jsfun := fun args => throw (default VUndefined (head args)).

(** [() => 'fallback'] *)
Definition return_fallback : jsfun := fun _ => ret (VString "fallback").

(** A response [404 Not Found]. *)
Definition not_found : response.Response :=
  {| response.status := Int 404; response.statusText := "Not Found" |}.

(** An empty in-memory table. *)
Definition empty_world
    : DynamoDB.world Empty_set (gmap (string * string) DynamoDB.DynamoDBItem) :=
  {| DynamoDB.service := ∅; DynamoDB.console := []; DynamoDB.now := 1234567890000 |}.

(** A client whose every call is rejected with the fault [503]. *)
Definition failing_send (c : DynamoDB.command) (s : unit)
    : DynamoDB.promised nat DynamoDB.output * unit :=
  (DynamoDB.Rejects 503, s).

Definition unit_world : DynamoDB.world nat unit :=
  {| DynamoDB.service := tt; DynamoDB.console := []; DynamoDB.now := 0 |}.

End MoreExamples.

(** * Properties *)

(** ** [JSON.stringify] *)

Section Serialize.

Import JSON Graph.

Variable h : heap.

Lemma edge_serializable a b : edge h a b -> serializable h a.
Proof.
  unfold edge, children, serializable. intros Hin.
  destruct (h !! a) as [o|] eqn:Ha; [|by apply elem_of_nil in Hin].
  exists o. split; [done|]. intros ->. by apply elem_of_nil in Hin.
Qed.

Lemma tc_serializable a b : tc (edge h) a b -> serializable h a.
Proof. destruct 1; eauto using edge_serializable. Qed.

Lemma object_members_inv ser K :
  match object_members ser K with
  | Done _ => forall p, p ∈ K -> exists r, ser p.2 = Done r
  | Abrupt r => exists p, p ∈ K /\ ser p.2 = Abrupt r
  end.
Proof.
  induction K as [|[P v] K IH]; simpl.
  - intros p Hp. by apply elem_of_nil in Hp.
  - destruct (ser v) as [strP|r] eqn:Hv.
    + destruct (object_members ser K) as [partial|r].
      * intros p [->|Hp]%elem_of_cons; eauto.
      * destruct IH as (p & Hp & Hr). exists p. split; [by right|done].
    + exists (P, v). split; [by left|done].
Qed.

Lemma array_elements_inv ser elems :
  match array_elements ser elems with
  | Done _ => forall v, v ∈ elems -> exists r, ser v = Done r
  | Abrupt r => exists v, v ∈ elems /\ ser v = Abrupt r
  end.
Proof.
  induction elems as [|v elems IH]; simpl.
  - intros p Hp. by apply elem_of_nil in Hp.
  - destruct (ser v) as [strP|r] eqn:Hv.
    + destruct (array_elements ser elems) as [partial|r].
      * intros p [->|Hp]%elem_of_cons; eauto.
      * destruct IH as (p & Hp & Hr). exists p. split; [by right|done].
    + exists v. split; [by left|done].
Qed.

Lemma serialize_level_inv ser o :
  match serialize_level ser o with
  | Done _ => forall v, v ∈ object_children o -> exists r, ser v = Done r
  | Abrupt r => exists v, v ∈ object_children o /\ ser v = Abrupt r
  end.
Proof.
  assert (Hobj : match SerializeJSONObject ser o with
    | Done _ => forall v, v ∈ map snd (EnumerableOwnProperties o) ->
                  exists r, ser v = Done r
    | Abrupt r => exists v, v ∈ map snd (EnumerableOwnProperties o) /\
                  ser v = Abrupt r
    end).
  { unfold SerializeJSONObject.
    pose proof (object_members_inv ser (EnumerableOwnProperties o)) as Hinv.
    destruct (object_members ser (EnumerableOwnProperties o)).
    - intros v ([P v'] & -> & Hp)%list_elem_of_fmap. by apply (Hinv (P, v')).
    - destruct Hinv as ([P v] & Hp & Hr). exists v. split; [|done].
      apply list_elem_of_fmap. by exists (P, v). }
  destruct o; try exact Hobj. simpl. unfold SerializeJSONArray.
  pose proof (array_elements_inv ser elems) as Hinv.
  by destruct (array_elements ser elems).
Qed.

Lemma Serialize_ref fuel stack a :
  SerializeJSONProperty fuel h stack (VRef a) =
  match h !! a with
  | None => Done None
  | Some OFunction => Done None
  | Some o =>
      if bool_decide (a ∈ stack) then Abrupt Circular
      else
        match fuel with
        | O => Abrupt OutOfFuel
        | S fuel' => serialize_level (SerializeJSONProperty fuel' h (a :: stack)) o
        end
  end.
Proof.
  destruct fuel; simpl; destruct (h !! a) as [[]|]; try done.
Qed.

Lemma Serialize_ref_Done fuel stack a r :
  serializable h a ->
  SerializeJSONProperty fuel h stack (VRef a) = Done r ->
  (a ∉ stack) /\
  exists fuel', fuel = S fuel' /\
    forall v, v ∈ children h a ->
      exists r', SerializeJSONProperty fuel' h (a :: stack) v = Done r'.
Proof.
  intros (o & Ha & Ho). rewrite Serialize_ref, Ha.
  unfold children. rewrite Ha.
  destruct (bool_decide_reflect (a ∈ stack)) as [Hin|Hin].
  { by destruct o. }
  destruct fuel as [|fuel'].
  { by destruct o. }
  intros Hser. split; [done|]. exists fuel'. split; [done|].
  pose proof (serialize_level_inv
    (SerializeJSONProperty fuel' h (a :: stack)) o) as Hinv.
  destruct o; try done; by rewrite Hser in Hinv.
Qed.



Lemma children_serializable a v : v ∈ children h a -> serializable h a.
Proof.
  unfold children, serializable. intros Hin.
  destruct (h !! a) as [o|] eqn:Ha; [|by apply elem_of_nil in Hin].
  exists o. split; [done|]. intros ->. by apply elem_of_nil in Hin.
Qed.


Lemma Serialize_ref_in_stack fuel stack a :
  serializable h a -> a ∈ stack ->
  SerializeJSONProperty fuel h stack (VRef a) = Abrupt Circular.
Proof.
  intros (o & Ha & Ho) Hin. rewrite Serialize_ref, Ha.
  rewrite bool_decide_eq_true_2 by done. by destruct o.
Qed.

(** *** The fuel is enough *)



(** *** What makes the serialization stop *)



(** *** What a finished serialization excludes *)

Lemma Done_no_bigint a b :
  rtc (edge h) a b ->
  forall fuel stack r z,
    SerializeJSONProperty fuel h stack (VRef a) = Done r ->
    VBigInt z ∈ children h b -> False.
Proof.
  induction 1 as [a|a c b Hedge Hreach IH]; intros fuel stack r z Hser Hz.
  - apply Serialize_ref_Done in Hser as (_ & fuel' & -> & Hkids);
      [|by eapply children_serializable].
    destruct (Hkids _ Hz) as [r' Hr']. by destruct fuel'.
  - apply Serialize_ref_Done in Hser as (_ & fuel' & -> & Hkids);
      [|by eapply edge_serializable].
    destruct (Hkids _ Hedge) as [r' Hr']. eauto.
Qed.

Lemma Done_no_back x b :
  tc (edge h) x b ->
  forall fuel stack r,
    serializable h b ->
    SerializeJSONProperty fuel h stack (VRef x) = Done r ->
    b ∈ x :: stack -> False.
Proof.
  induction 1 as [x b Hedge|x y b Hedge Hreach IH]; intros fuel stack r Hb Hser Hin.
  all: apply Serialize_ref_Done in Hser as (_ & fuel' & -> & Hkids);
         [|by eapply edge_serializable].
  all: destruct (Hkids _ Hedge) as [r' Hr'].
  - by rewrite Serialize_ref_in_stack in Hr'.
  - eapply IH; [done|done|]. by right.
Qed.

Lemma Done_no_cycle a b :
  rtc (edge h) a b -> tc (edge h) b b ->
  forall fuel stack r,
    SerializeJSONProperty fuel h stack (VRef a) = Done r -> False.
Proof.
  induction 1 as [a|a c b Hedge Hreach IH]; intros Hcyc fuel stack r Hser.
  - eapply Done_no_back; [done|by eapply tc_serializable|done|by left].
  - apply Serialize_ref_Done in Hser as (_ & fuel' & -> & Hkids);
      [|by eapply edge_serializable].
    destruct (Hkids _ Hedge) as [r' Hr']. eauto.
Qed.

End Serialize.

(** *** [JSON.stringify] as a whole *)

Section Stringify.

Import JSON Graph.

Lemma stringify_Done h v r :
  SerializeJSONProperty (S (List.length h)) h [] v = Done r ->
  stringify v h = (Normal r, h).
Proof. unfold stringify. by intros ->. Qed.

Lemma stringify_Abrupt h v r :
  SerializeJSONProperty (S (List.length h)) h [] v = Abrupt r ->
  stringify v h =
    (Throw (VRef (List.length h)), h ++ [OError (abrupt_message r) []]).
Proof. unfold stringify. by intros ->. Qed.


Lemma stringify_returns h v :
  returns (stringify v h) -> ~ cyclic h v /\ ~ holds_bigint h v.
Proof.
  unfold stringify.
  destruct (SerializeJSONProperty _ h [] v) as [r|r] eqn:Hser; [|done].
  intros _. split.
  - destruct v; simpl; try tauto. intros (b & Hreach & Hcyc).
    eapply Done_no_cycle; eauto.
  - destruct v; simpl; try tauto.
    + by destruct (List.length h).
    + intros (b & z & Hreach & Hz). eapply Done_no_bigint; eauto.
Qed.


Lemma returns_or_throws {A} (c : completion A * heap) : returns c \/ throws c.
Proof. destruct c as [[a|e] h']; simpl; auto. Qed.

(** What it throws is a new TypeError; the heap is otherwise untouched. *)
Lemma stringify_outcome h v :
  (exists r, stringify v h = (Normal r, h)) \/
  (exists message,
     stringify v h = (Throw (VRef (List.length h)), h ++ [OError message []])).
Proof.
  destruct (SerializeJSONProperty (S (List.length h)) h [] v) as [r|r] eqn:Hser.
  - left. exists r. by apply stringify_Done.
  - right. exists (abrupt_message r). by apply stringify_Abrupt.
Qed.

End Stringify.

(** ** errorUtils *)

Section ErrorUtils.

Import JSON Graph errorUtils.

Lemma getErrorMessage_Error h v message props :
  load v h = Some (OError message props) ->
  getErrorMessage v h = (Normal (Some message), h).
Proof.
  intros Hload. destruct v; try done.
  unfold getErrorMessage, bind, get_heap. by rewrite Hload.
Qed.

Lemma getErrorMessage_other h v :
  v <> VUndefined -> v <> VNull -> (forall s, v <> VString s) ->
  instanceof_Error v h = false ->
  getErrorMessage v h = stringify v h.
Proof.
  intros Hu Hn Hs Herr. unfold instanceof_Error in Herr.
  destruct v; try done; unfold getErrorMessage, bind, get_heap; simpl in *.
  - by destruct (Hs s).
  - by destruct (h !! a) as [[]|].
Qed.

Lemma getErrorMessage_outcome h v :
  (exists r, getErrorMessage v h = (Normal r, h)) \/
  (exists message,
     getErrorMessage v h =
       (Throw (VRef (List.length h)), h ++ [OError message []])).
Proof.
  destruct (instanceof_Error v h) eqn:Herr.
  - unfold instanceof_Error in Herr.
    destruct (load v h) as [[]|] eqn:Hload; try done.
    left. eexists. by eapply getErrorMessage_Error.
  - destruct v; try (left; eexists; reflexivity).
    all: rewrite getErrorMessage_other by done; apply stringify_outcome.
Qed.

Lemma convertToError_Error h v :
  instanceof_Error v h = true -> convertToError v h = (Normal v, h).
Proof. intros Herr. unfold convertToError, bind, get_heap. by rewrite Herr. Qed.

Lemma convertToError_other h v :
  instanceof_Error v h = false ->
  convertToError v h =
    match getErrorMessage v h with
    | (Normal message, h') =>
        (Normal (VRef (List.length h')),
         h' ++ [OError (default EmptyString message) []])
    | (Throw e, h') => (Throw e, h')
    end.
Proof.
  intros Herr. unfold convertToError, bind, get_heap. rewrite Herr.
  by destruct (getErrorMessage v h) as [[m|e] h'].
Qed.

End ErrorUtils.

(** ** Result: constructor, factories and accessors *)

Section ResultBasics.

Import errorUtils Result.

Lemma load_fresh h o : load (VRef (List.length h)) (h ++ [o]) = Some o.
Proof. unfold load. by rewrite lookup_app_r, Nat.sub_diag by lia. Qed.

Lemma load_app h k v o : load v h = Some o -> load v (h ++ k) = Some o.
Proof. destruct v; try done. unfold load. apply lookup_app_l_Some. Qed.

Lemma constructor_accepts h v e :
  truthy v && truthy e = false ->
  constructor v e h = (Normal (VRef (List.length h)), h ++ [OResult v e]).
Proof. intros Hcheck. unfold constructor, bind, alloc. by rewrite Hcheck. Qed.

Lemma constructor_rejects h v e :
  truthy v && truthy e = true ->
  constructor v e h =
    (Throw (VRef (S (List.length h))),
     h ++ [OResult v e; OError "Result cannot be both success and failure" []]).
Proof.
  intros Hcheck. unfold constructor, bind, alloc, new_Error, alloc, throw.
  rewrite Hcheck. simpl. rewrite length_app, <- app_assoc. simpl.
  by rewrite Nat.add_1_r.
Qed.

Lemma success_eq h v :
  success v h = (Normal (VRef (List.length h)), h ++ [OResult v VUndefined]).
Proof. apply constructor_accepts. apply andb_false_r. Qed.

Lemma failure_eq h e :
  failure e h = (Normal (VRef (List.length h)), h ++ [OResult VUndefined e]).
Proof. by apply constructor_accepts. Qed.

Section Receiver.

(** A receiver [this] that is a Result holding [v] and [e]. *)
Variables (h : heap) (this v e : value).
Hypothesis Hthis : load this h = Some (OResult v e).

Lemma get_value_eq : get_value this h = (Normal v, h).
Proof. unfold get_value, bind, get_heap. by rewrite Hthis. Qed.

Lemma get_error_eq : get_error this h = (Normal e, h).
Proof. unfold get_error, bind, get_heap. by rewrite Hthis. Qed.

Lemma isSuccess_eq : isSuccess this h = (Normal (is_undefined e), h).
Proof. unfold isSuccess, bind. by rewrite get_error_eq. Qed.

Lemma isFailure_eq : isFailure this h = (Normal (populated e), h).
Proof. unfold isFailure, bind. by rewrite isSuccess_eq. Qed.

Lemma getOrThrow_eq :
  getOrThrow this h = if is_undefined e then (Normal v, h) else (Throw e, h).
Proof.
  unfold getOrThrow, bind. rewrite isSuccess_eq.
  destruct (is_undefined e); [apply get_value_eq|by rewrite get_error_eq].
Qed.

Lemma getOrDefault_eq d :
  getOrDefault this d h = (Normal (if is_undefined e then v else d), h).
Proof.
  unfold getOrDefault, bind. rewrite isSuccess_eq.
  destruct (is_undefined e); [apply get_value_eq|done].
Qed.

Lemma getOrElse_eq transfer :
  getOrElse this transfer h =
    if is_undefined e then (Normal v, h) else transfer [e] h.
Proof.
  unfold getOrElse, bind. rewrite isSuccess_eq.
  destruct (is_undefined e); [apply get_value_eq|by rewrite get_error_eq].
Qed.

Lemma onSuccess_eq f :
  onSuccess this f h =
    if is_undefined e then
      match f [v] h with
      | (Normal _, h') => (Normal this, h')
      | (Throw x, h') => (Throw x, h')
      end
    else (Normal this, h).
Proof.
  unfold onSuccess, bind. rewrite isSuccess_eq.
  destruct (is_undefined e); [|done]. rewrite get_value_eq.
  by destruct (f [v] h) as [[]].
Qed.

Lemma onFailure_eq f :
  onFailure this f h =
    if is_undefined e then (Normal this, h)
    else
      match f [e] h with
      | (Normal _, h') => (Normal this, h')
      | (Throw x, h') => (Throw x, h')
      end.
Proof.
  unfold onFailure, bind. rewrite isFailure_eq. unfold populated.
  destruct (is_undefined e); [done|]. simpl. rewrite get_error_eq.
  by destruct (f [e] h) as [[]].
Qed.

End Receiver.

End ResultBasics.

(** ** The exclusivity invariant (C1) *)

Section Exclusivity.

Import Result.

Lemma exclusive_fresh h v e :
  exclusive (Normal (VRef (List.length h)), h ++ [OResult v e]) <->
  xorb (populated v) (populated e) = true.
Proof. unfold exclusive. by rewrite load_fresh. Qed.

Lemma populated_iff v : populated v = true <-> v <> VUndefined.
Proof. destruct v; simpl; split; done. Qed.

(** C1 (as stated, refuted): [Result.success(undefined)] is an instance on
    which neither field is populated, so the invariant "never neither" does
    not hold of every [success(v)]; and the constructor's check is a
    truthiness test, so called with the falsy value [0] and an error it
    returns an instance with both fields populated instead of raising. *)
Lemma Result_exclusivity_counterexample :
  ~ exclusive (success VUndefined []) /\
  constructor (VNumber (Int 0)) Examples.error Examples.error_heap =
    (Normal (VRef 1),
     Examples.error_heap ++ [OResult (VNumber (Int 0)) Examples.error]).
Proof. split; [by intros [=]|reflexivity]. Qed.

(** C1 (amended): [Result.success(v)] returns a new instance holding [v]
    with the error field undefined, [Result.failure(e)] a new instance
    holding [e] with the value field undefined, and neither raises; so no
    instance they build has both fields populated, and exactly one field is
    populated unless the held [v] (or [e]) is itself [undefined].  The
    constructor raises a new Error whenever its value and its error are both
    truthy. *)
Theorem Result_construction h v e :
  success v h = (Normal (VRef (List.length h)), h ++ [OResult v VUndefined]) /\
  failure e h = (Normal (VRef (List.length h)), h ++ [OResult VUndefined e]) /\
  (exclusive (success v h) <-> v <> VUndefined) /\
  (exclusive (failure e h) <-> e <> VUndefined) /\
  (truthy v = true -> truthy e = true ->
   exists x h', constructor v e h = (Throw x, h') /\
     load x h' = Some (OError "Result cannot be both success and failure" [])).
Proof.
  split; [apply success_eq|]. split; [apply failure_eq|].
  rewrite success_eq, failure_eq, !exclusive_fresh. simpl.
  rewrite xorb_false_r, <- !populated_iff.
  split; [done|]. split; [done|]. intros Hv He.
  rewrite constructor_rejects by (by rewrite Hv, He).
  eexists _, _. split; [done|].
  change [OResult v e; OError "Result cannot be both success and failure" []]
    with ([OResult v e] ++ [OError "Result cannot be both success and failure" []]).
  rewrite app_assoc.
  replace (S (List.length h)) with (List.length (h ++ [OResult v e]))
    by (rewrite length_app; simpl; lia).
  apply load_fresh.
Qed.

(** C1, at [success(42)] and at the constructor called with [42] and an
    Error. *)
Lemma Result_construction_witness :
  exclusive (success (VNumber (Int 42)) []) /\
  exists x h',
    constructor (VNumber (Int 42)) Examples.error Examples.error_heap = (Throw x, h') /\
    load x h' = Some (OError "Result cannot be both success and failure" []).
Proof.
  split.
  - by apply (Result_construction [] (VNumber (Int 42)) VUndefined).
  - by apply (Result_construction Examples.error_heap (VNumber (Int 42)) Examples.error).
Defined.

End Exclusivity.

(** ** [getOrThrow] (C6) *)

Section GetOrThrow.

Import Result.

(** C6: [getOrThrow()] on [success(v)] returns [v]; on [failure(e)], for an
    error [e] (any value but [undefined]), it raises [e] itself: the thrown
    value is the reference that was stored, no new object is made. *)
Theorem getOrThrow_success_failure h v e :
  (do r <- success v; getOrThrow r) h = (Normal v, h ++ [OResult v VUndefined]) /\
  (e <> VUndefined ->
   (do r <- failure e; getOrThrow r) h = (Throw e, h ++ [OResult VUndefined e])).
Proof.
  unfold bind. rewrite success_eq, failure_eq.
  rewrite !(getOrThrow_eq _ _ _ _ (load_fresh _ _)).
  split; [done|]. intros He. by destruct e.
Qed.

(** C6, at [success(42)] and [failure(new Error('Something went wrong'))]. *)
Lemma getOrThrow_witness :
  (do r <- success (VNumber (Int 42)); getOrThrow r) Examples.error_heap =
    (Normal (VNumber (Int 42)),
     Examples.error_heap ++ [OResult (VNumber (Int 42)) VUndefined]) /\
  (do r <- failure Examples.error; getOrThrow r) Examples.error_heap =
    (Throw Examples.error,
     Examples.error_heap ++ [OResult VUndefined Examples.error]).
Proof.
  destruct (getOrThrow_success_failure Examples.error_heap (VNumber (Int 42))
              Examples.error) as [Hs Hf].
  split; [exact Hs|]. apply Hf. discriminate.
Defined.

End GetOrThrow.

(** ** [runCatching] (C2) *)

Section RunCatching.

Import Graph errorUtils Result.

(** The handler of both wrappers: normalize the fault, wrap it. *)
Lemma handler_eq e h :
  (do error <- convertToError e; failure error) h =
    match convertToError e h with
    | (Normal error, h') =>
        (Normal (VRef (List.length h')), h' ++ [OResult VUndefined error])
    | (Throw x, h') => (Throw x, h')
    end.
Proof.
  unfold bind. destruct (convertToError e h) as [[error|x] h']; [|done].
  apply failure_eq.
Qed.

Lemma runCatching_eq f args h :
  runCatching f args h =
    match f args h with
    | (Normal v, h1) =>
        if instanceof_Result v h1 then (Normal v, h1) else success v h1
    | (Throw e, h1) => (do error <- convertToError e; failure error) h1
    end.
Proof.
  unfold runCatching, try_catch. unfold bind at 1 2.
  destruct (f args h) as [[v|e] h1]; [|done].
  unfold get_heap. destruct (instanceof_Result v h1); [done|].
  by rewrite success_eq.
Qed.

(** The handler raises exactly what [convertToError] raises: [failure]
    itself never does. *)
Lemma handler_throws e h x h' :
  (do error <- convertToError e; failure error) h = (Throw x, h') <->
  convertToError e h = (Throw x, h').
Proof.
  rewrite handler_eq. by destruct (convertToError e h) as [[error|y] h2].
Qed.

Lemma runCatching_throws f args h x h' :
  runCatching f args h = (Throw x, h') <->
  exists e h1, f args h = (Throw e, h1) /\ convertToError e h1 = (Throw x, h').
Proof.
  rewrite runCatching_eq. destruct (f args h) as [[v|e] h1].
  - split.
    + destruct (instanceof_Result v h1); [done|]. by rewrite success_eq.
    + by intros (e & h2 & [=] & _).
  - rewrite handler_throws. split.
    + intros Hconv. by exists e, h1.
    + by intros (e' & h2 & [= <- <-] & Hconv).
Qed.

Lemma runCatching_caught f args h e h1 error h2 :
  f args h = (Throw e, h1) ->
  convertToError e h1 = (Normal error, h2) ->
  runCatching f args h = failure error h2.
Proof.
  intros Hf Hconv. rewrite runCatching_eq, Hf. unfold bind. by rewrite Hconv.
Qed.

(** C2 (as stated, refuted): a callback that throws a self-referential
    object makes [runCatching] itself raise, because the normalization in
    the [catch] block fails; the fault escapes. *)
Lemma runCatching_counterexample :
  throws (runCatching Examples.throw_circularObj [] Examples.circular_heap).
Proof. vm_compute. exact I. Qed.

(** C2 (amended): [runCatching(f, ...args)] returns the very Result [f]
    returned when [f] completes with a Result; returns [success(value)] when
    [f] completes with another value; and, when [f] raises [e], runs
    [failure(convertToError(e))], which returns a Failure whenever
    [convertToError(e)] completes.  No fault of [f] escapes; the only fault
    that leaves [runCatching] is one that [convertToError(e)] itself raises
    while it normalizes what [f] threw, as it does for a self-referential
    object. *)
Theorem runCatching_spec f args h :
  (forall v h1, f args h = (Normal v, h1) -> instanceof_Result v h1 = true ->
     runCatching f args h = (Normal v, h1)) /\
  (forall v h1, f args h = (Normal v, h1) -> instanceof_Result v h1 = false ->
     runCatching f args h = success v h1) /\
  (forall e h1, f args h = (Throw e, h1) ->
     runCatching f args h = (do error <- convertToError e; failure error) h1) /\
  (forall e h1 error h2, f args h = (Throw e, h1) ->
     convertToError e h1 = (Normal error, h2) ->
     runCatching f args h = failure error h2) /\
  (forall x h', runCatching f args h = (Throw x, h') <->
     exists e h1, f args h = (Throw e, h1) /\
       convertToError e h1 = (Throw x, h')).
Proof.
  split; [|split; [|split; [|split]]].
  - intros v h1 Hf Hres. by rewrite runCatching_eq, Hf, Hres.
  - intros v h1 Hf Hres. by rewrite runCatching_eq, Hf, Hres.
  - intros e h1 Hf. by rewrite runCatching_eq, Hf.
  - intros e h1 error h2 Hf Hconv. by eapply runCatching_caught.
  - intros x h'. apply runCatching_throws.
Qed.

(** C2, at [runCatching(() => { throw 'plain string' })]: a Failure whose
    error is a new Error with that message. *)
Lemma runCatching_witness :
  runCatching Examples.throw_string [] [] =
    (Normal (VRef 1), [OError "plain string" []; OResult VUndefined (VRef 0)]).
Proof.
  destruct (runCatching_spec Examples.throw_string [] []) as (_ & _ & _ & H & _).
  apply (H (VString "plain string") [] (VRef 0) [OError "plain string" []]);
    reflexivity.
Defined.

End RunCatching.

(** ** [recover] (C5) *)

Section Recover.

Import Graph errorUtils Result.

Lemma recover_eq h this v e transform :
  load this h = Some (OResult v e) ->
  recover this transform h =
    if is_undefined e then (Normal this, h)
    else runCatching (fun _ => transform [e]) [] h.
Proof.
  intros Hthis. unfold recover. unfold bind at 1.
  rewrite (isFailure_eq _ _ _ _ Hthis). unfold populated.
  destruct (is_undefined e); [done|]. simpl.
  rewrite !runCatching_eq. unfold bind at 1.
  by rewrite (get_error_eq _ _ _ _ Hthis).
Qed.

Lemma recover_throws h this v e transform x h' :
  load this h = Some (OResult v e) ->
  recover this transform h = (Throw x, h') <->
  e <> VUndefined /\
  exists y h1, transform [e] h = (Throw y, h1) /\
    convertToError y h1 = (Throw x, h').
Proof.
  intros Hthis. rewrite (recover_eq _ _ _ _ _ Hthis).
  destruct (is_undefined e) eqn:He.
  - destruct e; try done. split; [done|]. by intros [? _].
  - rewrite runCatching_throws. split; [|by intros [_ ?]].
    intros Hbad. split; [by intros ->|done].
Qed.

(** C5 (as stated, refuted): on a Failure, a transform that throws a
    self-referential object makes [recover] raise instead of yielding a
    Failure. *)
Lemma recover_counterexample :
  throws (recover Examples.failed Examples.throw_circular_2 Examples.recover_heap).
Proof. vm_compute. exact I. Qed.

(** C5 (amended): [recover(transform)] on a Success returns the receiver
    itself and leaves the heap as it was, whatever [transform] is, so
    [transform] is not invoked; on a Failure it is
    [runCatching(() => transform(error))], so a transform that throws [y]
    yields [failure(convertToError(y))] whenever [convertToError(y)]
    completes.  No fault of the transform escapes; the only fault that
    leaves [recover] is one that [convertToError(y)] itself raises. *)
Theorem recover_spec h this v e :
  load this h = Some (OResult v e) ->
  (e = VUndefined -> forall transform, recover this transform h = (Normal this, h)) /\
  (e <> VUndefined -> forall transform,
     recover this transform h = runCatching (fun _ => transform [e]) [] h) /\
  (e <> VUndefined -> forall transform y h1 error h2,
     transform [e] h = (Throw y, h1) ->
     convertToError y h1 = (Normal error, h2) ->
     recover this transform h = failure error h2) /\
  (forall transform x h',
     recover this transform h = (Throw x, h') <->
     e <> VUndefined /\
     exists y h1, transform [e] h = (Throw y, h1) /\
       convertToError y h1 = (Throw x, h')).
Proof.
  intros Hthis. split; [|split; [|split]].
  - intros -> transform. by rewrite (recover_eq _ _ _ _ _ Hthis).
  - intros He transform. rewrite (recover_eq _ _ _ _ _ Hthis). by destruct e.
  - intros He transform y h1 error h2 Hf Hconv.
    rewrite (recover_eq _ _ _ _ _ Hthis).
    rewrite (runCatching_caught (fun _ => transform [e]) [] h y h1 error h2)
      by done.
    by destruct e.
  - intros transform x h'. by eapply recover_throws.
Qed.

(** C5, at [Result.success(42).recover(...)] with a transform that would
    throw, and at [Result.failure(error).recover(() => { throw 'plain string' })]. *)
Lemma recover_witness :
  recover Examples.succeeded Examples.throw_string Examples.success_heap =
    (Normal Examples.succeeded, Examples.success_heap) /\
  recover Examples.failed Examples.throw_string Examples.failure_heap =
    failure (VRef 2) (Examples.failure_heap ++ [OError "plain string" []]).
Proof.
  split.
  - by apply (recover_spec Examples.success_heap Examples.succeeded
                (VNumber (Int 42)) VUndefined).
  - destruct (recover_spec Examples.failure_heap Examples.failed
                VUndefined Examples.error) as (_ & _ & H & _); [done|].
    by apply (H ltac:(done) Examples.throw_string (VString "plain string")
                Examples.failure_heap).
Defined.

End Recover.

(** ** [runAsyncCatching] (C4) *)

Section RunAsyncCatching.

Import Graph errorUtils Result.

Lemma resolve_Result v h :
  instanceof_Result v h = true -> resolve v h = Fulfilled v.
Proof.
  unfold instanceof_Result, resolve. by destruct (load v h) as [[]|].
Qed.

(** The promise an async call returns is the last object of the heap. *)
Lemma async_eq body h :
  async body h =
    match body h with
    | (Normal v, h') =>
        (Normal (VRef (List.length h')), h' ++ [OPromise (resolve v h')])
    | (Throw e, h') =>
        (Normal (VRef (List.length h')), h' ++ [OPromise (Rejected e)])
    end.
Proof. unfold async, alloc. by destruct (body h) as [[]]. Qed.

Lemma settlement_async body h :
  settlement (async body h) =
    Some match body h with
         | (Normal v, h') => resolve v h'
         | (Throw e, h') => Rejected e
         end.
Proof.
  rewrite async_eq. unfold settlement.
  by destruct (body h) as [[v|e] h']; rewrite load_fresh.
Qed.

(** The body of [runAsyncCatching] is the body of [runCatching] run on the
    awaited callee. *)
Lemma runAsyncCatching_eq f args h :
  runAsyncCatching f args h = async (runCatching (awaited f) args) h.
Proof.
  unfold runAsyncCatching, runCatching, awaited, async, try_catch, bind.
  destruct (f args h) as [[p|e] h1]; [|done].
  by destruct (await p h1) as [[v|e] h2].
Qed.

Lemma runCatching_resolve f args h :
  match runCatching f args h with
  | (Normal r, h') => resolve r h' = Fulfilled r
  | (Throw _, _) => True
  end.
Proof.
  rewrite runCatching_eq. destruct (f args h) as [[v|e] h1].
  - destruct (instanceof_Result v h1) eqn:Hres.
    + by apply resolve_Result.
    + rewrite success_eq. unfold resolve. by rewrite load_fresh.
  - rewrite handler_eq. destruct (convertToError e h1) as [[error|x] h2]; [|done].
    unfold resolve. by rewrite load_fresh.
Qed.

Lemma settlement_runAsyncCatching f args h :
  settlement (runAsyncCatching f args h) =
    Some match runCatching (awaited f) args h with
         | (Normal r, _) => Fulfilled r
         | (Throw x, _) => Rejected x
         end.
Proof.
  rewrite runAsyncCatching_eq, settlement_async.
  pose proof (runCatching_resolve (awaited f) args h) as Hres.
  destruct (runCatching (awaited f) args h) as [[r|x] h']; by rewrite ?Hres.
Qed.

Lemma runAsyncCatching_returns f args h : returns (runAsyncCatching f args h).
Proof.
  rewrite runAsyncCatching_eq, async_eq.
  by destruct (runCatching (awaited f) args h) as [[]].
Qed.

Lemma runAsyncCatching_rejected f args h x :
  settlement (runAsyncCatching f args h) = Some (Rejected x) <->
  exists e h1 h2, awaited f args h = (Throw e, h1) /\
    convertToError e h1 = (Throw x, h2).
Proof.
  rewrite settlement_runAsyncCatching.
  destruct (runCatching (awaited f) args h) as [[r|y] h'] eqn:Hrun.
  - split; [done|]. intros (e & h1 & h2 & Hf & Hconv).
    assert (Hthrow : runCatching (awaited f) args h = (Throw x, h2))
      by (apply runCatching_throws; eauto).
    by rewrite Hthrow in Hrun.
  - apply runCatching_throws in Hrun as (e & h1 & Hf & Hconv). split.
    + intros [= <-]. eauto.
    + intros (e' & h1' & h2 & Hf' & Hconv'). rewrite Hf' in Hf.
      injection Hf as <- <-. rewrite Hconv' in Hconv. by injection Hconv as <- _.
Qed.

(** C4 (as stated, refuted): a callee whose promise rejects with a
    self-referential object makes the promise of [runAsyncCatching] reject,
    with the TypeError of the failed normalization. *)
Lemma runAsyncCatching_counterexample :
  settlement (runAsyncCatching Examples.reject_circularObj [] Examples.circular_heap)
  = Some (Rejected (VRef 2)).
Proof. reflexivity. Qed.

(** C4 (amended): [runAsyncCatching(f, ...args)] never raises at the call.
    Provided the deferred value of [f] settles: fulfilled by a Result, the
    promise returned is a new promise fulfilled with that very Result;
    fulfilled by another value, with [success(value)]; rejected (or [f]
    raising) with [e], it is fulfilled with [failure(convertToError(e))]
    whenever [convertToError(e)] completes, in particular with a Failure
    holding [e] itself when [e] is an Error.  The promise is rejected only
    when [convertToError(e)] itself raises, and then with that fault. *)
Theorem runAsyncCatching_spec f args h :
  returns (runAsyncCatching f args h) /\
  (forall v h1, awaited f args h = (Normal v, h1) ->
     instanceof_Result v h1 = true ->
     runAsyncCatching f args h =
       (Normal (VRef (List.length h1)), h1 ++ [OPromise (Fulfilled v)])) /\
  (forall v h1, awaited f args h = (Normal v, h1) ->
     instanceof_Result v h1 = false ->
     runAsyncCatching f args h =
       (Normal (VRef (S (List.length h1))),
        h1 ++ [OResult v VUndefined; OPromise (Fulfilled (VRef (List.length h1)))])) /\
  (forall e h1 error h2, awaited f args h = (Throw e, h1) ->
     convertToError e h1 = (Normal error, h2) ->
     runAsyncCatching f args h =
       (Normal (VRef (S (List.length h2))),
        h2 ++ [OResult VUndefined error; OPromise (Fulfilled (VRef (List.length h2)))])) /\
  (forall e h1, awaited f args h = (Throw e, h1) ->
     instanceof_Error e h1 = true ->
     convertToError e h1 = (Normal e, h1)) /\
  (forall x, settlement (runAsyncCatching f args h) = Some (Rejected x) <->
     exists e h1 h2, awaited f args h = (Throw e, h1) /\
       convertToError e h1 = (Throw x, h2)).
Proof.
  assert (Hfresh : forall (k : heap) o p,
    (Normal (VRef (List.length (k ++ [o]))), (k ++ [o]) ++ [p]) =
    (@Normal value (VRef (S (List.length k))), k ++ [o; p])).
  { intros k o p. rewrite length_app, <- app_assoc. simpl.
    by rewrite Nat.add_1_r. }
  split; [|split; [|split; [|split; [|split]]]].
  - apply runAsyncCatching_returns.
  - intros v h1 Hf Hres. rewrite runAsyncCatching_eq, async_eq, runCatching_eq, Hf, Hres.
    by rewrite resolve_Result.
  - intros v h1 Hf Hres.
    rewrite runAsyncCatching_eq, async_eq, runCatching_eq, Hf, Hres, success_eq.
    unfold resolve. rewrite load_fresh. apply Hfresh.
  - intros e h1 error h2 Hf Hconv.
    rewrite runAsyncCatching_eq, async_eq, runCatching_eq, Hf, handler_eq, Hconv.
    unfold resolve. rewrite load_fresh. apply Hfresh.
  - intros e h1 _ Herr. by apply convertToError_Error.
  - intros x. apply runAsyncCatching_rejected.
Qed.

(** C4, at [runAsyncCatching(async () => { throw new Error('x') })]: the
    promise is fulfilled with a Failure holding that Error, whose message is
    [x]. *)
Lemma runAsyncCatching_witness :
  runAsyncCatching Examples.reject_Error_x [] [] =
    (Normal (VRef 3),
     [OError "x" []; OPromise (Rejected (VRef 0));
      OResult VUndefined (VRef 0); OPromise (Fulfilled (VRef 2))]).
Proof.
  destruct (runAsyncCatching_spec Examples.reject_Error_x [] [])
    as (_ & _ & _ & H & _).
  exact (H (VRef 0) [OError "x" []; OPromise (Rejected (VRef 0))]
           (VRef 0) [OError "x" []; OPromise (Rejected (VRef 0))]
           eq_refl eq_refl).
Defined.

End RunAsyncCatching.

(** ** Which operations can raise (C3) *)

Section Faults.

Import Graph errorUtils Result.

Lemma settlement_recoverAsync h this v e transform :
  load this h = Some (OResult v e) ->
  settlement (recoverAsync this transform h) =
    Some (if is_undefined e then Fulfilled this
          else match runCatching (awaited (fun _ => transform [e])) [] h with
               | (Normal r, _) => Fulfilled r
               | (Throw x, _) => Rejected x
               end).
Proof.
  intros Hthis. unfold recoverAsync. rewrite settlement_async.
  unfold bind at 1. rewrite (isFailure_eq _ _ _ _ Hthis). unfold populated.
  destruct (is_undefined e); simpl.
  { unfold ret, resolve. by rewrite Hthis. }
  assert (Hsame :
    runAsyncCatching (fun _ => do error <- get_error this; transform [error]) [] h =
    runAsyncCatching (fun _ => transform [e]) [] h).
  { unfold runAsyncCatching, async, try_catch. unfold bind at 1 2 3 6 7.
    by rewrite (get_error_eq _ _ _ _ Hthis). }
  rewrite Hsame, runAsyncCatching_eq, async_eq.
  pose proof (runCatching_resolve (awaited (fun _ => transform [e])) [] h) as Hres.
  destruct (runCatching _ [] h) as [[r|x] h'];
    unfold resolve at 1; by rewrite load_fresh, ?Hres.
Qed.

(** C3 (as stated, refuted): [getOrElse] on a Failure with a callback that
    throws raises that fault to the caller. *)
Lemma getOrElse_counterexample :
  getOrElse Examples.failed Examples.throw_string Examples.failure_heap =
    (Throw (VString "plain string"), Examples.failure_heap).
Proof. reflexivity. Qed.

(** C3 (amended): on a Result, [isSuccess], [isFailure] and [getOrDefault]
    never raise.  [getOrElse] and [onFailure] raise exactly when the Result
    is a Failure and the callback raises; [onSuccess] exactly when it is a
    Success and the callback raises.  [recover] and [runCatching] let no
    fault of the callback through: the only fault that leaves them is one
    that [convertToError] itself raises on what the callback threw.
    [recoverAsync] and [runAsyncCatching] never raise at the call, and their
    promise rejects only with such a fault of [convertToError].
    [getOrThrow] raises exactly on a Failure. *)
Theorem Result_operations_faults h this v e :
  load this h = Some (OResult v e) ->
  returns (isSuccess this h) /\
  returns (isFailure this h) /\
  (forall d, returns (getOrDefault this d h)) /\
  (forall f, throws (getOrElse this f h) <-> e <> VUndefined /\ throws (f [e] h)) /\
  (forall f, throws (onSuccess this f h) <-> e = VUndefined /\ throws (f [v] h)) /\
  (forall f, throws (onFailure this f h) <-> e <> VUndefined /\ throws (f [e] h)) /\
  (forall f x h', recover this f h = (Throw x, h') <->
     e <> VUndefined /\
     exists y h1, f [e] h = (Throw y, h1) /\
       convertToError y h1 = (Throw x, h')) /\
  (forall f args x h', runCatching f args h = (Throw x, h') <->
     exists y h1, f args h = (Throw y, h1) /\
       convertToError y h1 = (Throw x, h')) /\
  (forall f, returns (recoverAsync this f h) /\
     forall x, settlement (recoverAsync this f h) = Some (Rejected x) <->
       e <> VUndefined /\
       exists y h1 h2, awaited (fun _ => f [e]) [] h = (Throw y, h1) /\
         convertToError y h1 = (Throw x, h2)) /\
  (forall f args, returns (runAsyncCatching f args h) /\
     forall x, settlement (runAsyncCatching f args h) = Some (Rejected x) <->
       exists y h1 h2, awaited f args h = (Throw y, h1) /\
         convertToError y h1 = (Throw x, h2)) /\
  (throws (getOrThrow this h) <-> e <> VUndefined).
Proof.
  intros Hthis.
  assert (Hun : e = VUndefined <-> is_undefined e = true)
    by (destruct e; split; done).
  assert (Hpop : e <> VUndefined <-> is_undefined e = false)
    by (destruct e; split; done).
  split; [by rewrite (isSuccess_eq _ _ _ _ Hthis)|].
  split; [by rewrite (isFailure_eq _ _ _ _ Hthis)|].
  split; [intros d; by rewrite (getOrDefault_eq _ _ _ _ Hthis)|].
  split; [|split; [|split; [|split; [|split; [|split; [|split]]]]]].
  - intros f. rewrite (getOrElse_eq _ _ _ _ Hthis), Hpop.
    destruct (is_undefined e); simpl; intuition discriminate.
  - intros f. rewrite (onSuccess_eq _ _ _ _ Hthis), Hun.
    destruct (is_undefined e); [|simpl; intuition discriminate].
    destruct (f [v] h) as [[]]; simpl; intuition.
  - intros f. rewrite (onFailure_eq _ _ _ _ Hthis), Hpop.
    destruct (is_undefined e); [simpl; intuition discriminate|].
    destruct (f [e] h) as [[]]; simpl; intuition.
  - intros f x h'. by eapply recover_throws.
  - intros f args x h'. apply runCatching_throws.
  - intros f. split.
    + unfold recoverAsync. rewrite async_eq.
      by destruct (bind _ _ h) as [[]].
    + intros x. rewrite (settlement_recoverAsync _ _ _ _ _ Hthis), Hpop.
      destruct (is_undefined e).
      * split; [done|by intros [[=] _]].
      * rewrite <- settlement_runAsyncCatching, runAsyncCatching_rejected.
        intuition.
  - intros f args. split;
      [apply runAsyncCatching_returns|intros x; apply runAsyncCatching_rejected].
  - rewrite (getOrThrow_eq _ _ _ _ Hthis), Hpop.
    destruct (is_undefined e); simpl; intuition discriminate.
Qed.

(** C3, at the Failure of the examples: [isSuccess] returns, and [getOrElse]
    with a throwing callback raises. *)
Lemma Result_operations_faults_witness :
  returns (isSuccess Examples.failed Examples.failure_heap) /\
  throws (getOrElse Examples.failed Examples.throw_string Examples.failure_heap).
Proof.
  destruct (Result_operations_faults Examples.failure_heap Examples.failed
              VUndefined Examples.error eq_refl) as (Hs & _ & _ & Hg & _).
  split; [exact Hs|]. apply Hg. split; [discriminate|exact I].
Defined.

End Faults.

(** ** [getErrorMessage] case by case (C7) *)

Section Messages.

Import JSON Graph errorUtils.




(** *** Text without escapes *)




(** *** Array-index keys and the order of enumeration *)














(** *** Values that stand for a tree *)













End Messages.

(** ** Failure paths of the normalizer (C8) *)

Section FailurePaths.

Import JSON Graph errorUtils.

(** C8 (as stated, refuted): a BigInt makes [getErrorMessage] raise although
    nothing is cyclic, so the cycle is not the only failure path; and an
    Error that refers to itself is a value with a cycle on which
    [getErrorMessage] does not raise. *)
Lemma failure_paths_counterexample :
  (throws (getErrorMessage (VBigInt 1) []) /\ ~ cyclic [] (VBigInt 1)) /\
  (cyclic Examples.circular_error_heap (VRef 0) /\
   getErrorMessage (VRef 0) Examples.circular_error_heap =
     (Normal (Some "boom"), Examples.circular_error_heap)).
Proof.
  split; [split; [exact I|by intros []]|]. split; [|reflexivity].
  exists 0. split; [apply rtc_refl|]. apply tc_once.
  unfold edge, children. simpl. apply list_elem_of_here.
Qed.

(** C8 (amended): [getErrorMessage] applied to plain data (no [toJSON]
    method on the way) that is not an Error and from which the serialization
    reaches a reference cycle raises, and [convertToError] passes that fault
    on to its caller unchanged.  The cycle is not the only failure path: a
    BigInt that the serialization reaches raises too; and an Error never
    makes the normalizer raise, even one that refers to itself.
    [convertToError] has no failure path of its own: it raises exactly when
    it is given a value that is not an Error on which [getErrorMessage]
    raises, with the same fault. *)
Theorem normalizer_failure_paths h v :
  (plain_data h v -> instanceof_Error v h = false -> cyclic h v ->
   throws (getErrorMessage v h)) /\
  (plain_data h v -> instanceof_Error v h = false -> holds_bigint h v ->
   throws (getErrorMessage v h)) /\
  (instanceof_Error v h = true ->
   returns (getErrorMessage v h) /\ convertToError v h = (Normal v, h)) /\
  (forall x h', convertToError v h = (Throw x, h') <->
     instanceof_Error v h = false /\ getErrorMessage v h = (Throw x, h')).
Proof.
  assert (Hbad : instanceof_Error v h = false ->
                 cyclic h v \/ holds_bigint h v -> throws (getErrorMessage v h)).
  { intros Herr Hcase.
    assert (Hstr : getErrorMessage v h = stringify v h).
    { destruct v; try (simpl in Hcase; tauto); by apply getErrorMessage_other. }
    rewrite Hstr.
    destruct (returns_or_throws (stringify v h)) as [Hret|]; [|done].
    apply stringify_returns in Hret. tauto. }
  split; [auto|]. split; [auto|]. split.
  - intros Herr. split; [|by apply convertToError_Error].
    unfold instanceof_Error in Herr.
    destruct (load v h) as [[]|] eqn:Hload; try done.
    by rewrite (getErrorMessage_Error _ _ _ _ Hload).
  - intros x h'. destruct (instanceof_Error v h) eqn:Herr.
    + rewrite convertToError_Error by done. split; [done|by intros [[=] _]].
    + rewrite convertToError_other by done.
      destruct (getErrorMessage v h) as [[m|y] h1]; split; try done.
      * by intros [_ [=]].
      * intros [= <- <-]. done.
      * by intros [_ [= <- <-]].
Qed.

(** C8, at the self-referential object of the tests. *)
Lemma normalizer_failure_paths_witness :
  throws (getErrorMessage Examples.circularObj Examples.circular_heap).
Proof.
  destruct (normalizer_failure_paths Examples.circular_heap Examples.circularObj)
    as [Hcyc _].
  apply Hcyc; [|reflexivity|].
  - intros b _ (o & f & _ & _ & Hf).
    destruct f as [|f]; [done|]. by destruct f.
  - exists 0. split; [apply rtc_refl|]. apply tc_once.
    unfold edge, children. simpl. apply list_elem_of_further, list_elem_of_here.
Defined.

End FailurePaths.

(** ** [convertToError] (C9) *)

Section ConvertToError.

Import JSON Graph errorUtils.

(** C9 (as stated, refuted): for a function value [getErrorMessage] gives
    [undefined], not a string, and the new Error has the empty message; and
    for a self-referential object [convertToError] returns no error object
    at all, it raises. *)
Lemma convertToError_counterexample :
  (getErrorMessage (VRef 0) Examples.function_heap =
     (Normal None, Examples.function_heap) /\
   convertToError (VRef 0) Examples.function_heap =
     (Normal (VRef 1), Examples.function_heap ++ [OError EmptyString []])) /\
  throws (convertToError Examples.circularObj Examples.circular_heap).
Proof. split; [split; reflexivity|exact I]. Qed.

(** C9 (amended): [convertToError(v)] returns [v] itself, and allocates
    nothing, when [v] is an Error; otherwise, when [getErrorMessage(v)]
    returns a string, it returns a new Error, at an address no object had
    before, whose message is that string, and when [getErrorMessage(v)]
    raises it raises the same fault.  [convertToError(404)] gives a new
    Error with message [404]. *)
Theorem convertToError_spec h v :
  (instanceof_Error v h = true -> convertToError v h = (Normal v, h)) /\
  (instanceof_Error v h = false ->
   forall message, getErrorMessage v h = (Normal (Some message), h) ->
     convertToError v h =
       (Normal (VRef (List.length h)), h ++ [OError message []]) /\
     h !! List.length h = None) /\
  (instanceof_Error v h = false ->
   forall x h', getErrorMessage v h = (Throw x, h') ->
     convertToError v h = (Throw x, h')) /\
  convertToError (VNumber (Int 404)) h =
    (Normal (VRef (List.length h)), h ++ [OError "404" []]).
Proof.
  split; [apply convertToError_Error|]. split; [|split].
  - intros Herr message Hmsg. rewrite convertToError_other, Hmsg by done.
    split; [done|]. by apply lookup_ge_None.
  - intros Herr x h' Hmsg. by rewrite convertToError_other, Hmsg.
  - reflexivity.
Qed.

(** C9, at an existing Error and at the string of the tests. *)
Lemma convertToError_spec_witness :
  convertToError Examples.error Examples.error_heap =
    (Normal Examples.error, Examples.error_heap) /\
  convertToError (VString "Something went wrong") [] =
    (Normal (VRef 0), [OError "Something went wrong" []]).
Proof.
  split.
  - by apply (convertToError_spec Examples.error_heap Examples.error).
  - by apply (convertToError_spec [] (VString "Something went wrong")).
Defined.

End ConvertToError.

(** ** [DynamoDB.get] (C10) *)

Section Get.

Import DynamoDB.

Context {E S : Type}.
Variable send : command -> S -> promised E output * S.

Lemma get_resolves tableName k w result s :
  send (GetCommand tableName k) (service w) = (Resolves result, s) ->
  (get send tableName k w).1 =
    Resolves match Item result with
             | Some i => if nonempty (value i) then Some (value i) else None
             | None => None
             end.
Proof. unfold get. by intros ->. Qed.

Lemma nonempty_false s : nonempty s = false <-> s = EmptyString.
Proof. by destruct s. Qed.

Lemma get_never_empty tableName k w :
  (get send tableName k w).1 <> Resolves (Some EmptyString).
Proof.
  unfold get. destruct (send _ _) as [[result|error] s]; simpl; [|done].
  destruct (Item result) as [i|]; [|done].
  destruct (nonempty (value i)) eqn:Hne; [|done].
  intros [= Hv]. by rewrite Hv in Hne.
Qed.

Lemma get_null_iff tableName k w result s :
  send (GetCommand tableName k) (service w) = (Resolves result, s) ->
  (get send tableName k w).1 = Resolves None <->
  Item result = None \/ exists i, Item result = Some i /\ value i = EmptyString.
Proof.
  intros Hsend. rewrite (get_resolves _ _ _ _ _ Hsend).
  destruct (Item result) as [i|]; [|by split; [left|]].
  destruct (nonempty (value i)) eqn:Hne.
  - split; [done|]. intros [[=]|(j & [= <-] & Hv)].
    by rewrite Hv in Hne.
  - apply nonempty_false in Hne. split; [|done]. intros _. right. eauto.
Qed.

End Get.

Section PutGet.

Import DynamoDB.

(** With the in-memory table: the empty string, once stored, reads back as
    [null]. *)
Lemma put_empty_then_get {E : Type} (tableName k : string)
    (options : option PutOptions)
    (w : world E (gmap (string * string) DynamoDBItem)) :
  (get table_send tableName k
     (put table_send tableName k EmptyString options w).2).1 = Resolves None.
Proof.
  unfold put, get. simpl. by rewrite lookup_insert_eq.
Qed.

(** C10: [get] resolves to [null] when the client returns no item and also
    when it returns an item whose value is the empty string, and in no other
    case; it never resolves to the empty string; and an empty string stored
    by [put] in the in-memory table is read back as [null]. *)
Theorem get_empty_value_is_null {E S : Type}
    (send : command -> S -> promised E output * S) (tableName k : string)
    (w : world E S) (result : output) (s : S) :
  send (GetCommand tableName k) (service w) = (Resolves result, s) ->
  ((get send tableName k w).1 = Resolves None <->
   Item result = None \/ exists i, Item result = Some i /\ value i = EmptyString) /\
  (get send tableName k w).1 <> Resolves (Some EmptyString) /\
  (forall (options : option PutOptions)
          (w0 : world E (gmap (string * string) DynamoDBItem)),
     (get table_send tableName k
        (put table_send tableName k EmptyString options w0).2).1 = Resolves None).
Proof.
  intros Hsend. split; [by eapply get_null_iff|].
  split; [apply get_never_empty|]. intros options w0. apply put_empty_then_get.
Qed.

(** C10, at a table that holds the empty string under [k]. *)
Lemma get_empty_value_is_null_witness :
  (get table_send "t" "k" Examples.empty_value_world).1 = Resolves None.
Proof.
  eapply (get_empty_value_is_null table_send "t" "k" Examples.empty_value_world).
  - reflexivity.
  - right. eexists. split; [simpl; apply lookup_singleton_eq|reflexivity].
Defined.

End PutGet.

(** * Further properties *)

(** ** What [runCatching] hands back *)

Section RunCatchingMore.

Import Graph errorUtils Result.

Lemma instanceof_Error_fresh h message props :
  instanceof_Error (VRef (List.length h)) (h ++ [OError message props]) = true.
Proof. unfold instanceof_Error. by rewrite load_fresh. Qed.

Lemma instanceof_Result_fresh h v e :
  instanceof_Result (VRef (List.length h)) (h ++ [OResult v e]) = true.
Proof. unfold instanceof_Result. by rewrite load_fresh. Qed.

(** Whatever [convertToError] returns is an Error; whatever it throws is one
    too. *)
Lemma convertToError_kinds v h :
  match convertToError v h with
  | (Normal e, h') => instanceof_Error e h' = true
  | (Throw x, h') => instanceof_Error x h' = true
  end.
Proof.
  destruct (instanceof_Error v h) eqn:Herr.
  - by rewrite convertToError_Error.
  - rewrite convertToError_other by done.
    destruct (getErrorMessage_outcome h v) as [[r ->]|[message ->]];
      apply instanceof_Error_fresh.
Qed.

Lemma runCatching_kinds f args h :
  match runCatching f args h with
  | (Normal r, h') => instanceof_Result r h' = true
  | (Throw x, h') => instanceof_Error x h' = true
  end.
Proof.
  rewrite runCatching_eq. destruct (f args h) as [[v|e] h1].
  - destruct (instanceof_Result v h1) eqn:Hres; [done|].
    rewrite success_eq. apply instanceof_Result_fresh.
  - rewrite handler_eq. pose proof (convertToError_kinds e h1) as Hk.
    destruct (convertToError e h1) as [[error|x] h2]; [|done].
    apply instanceof_Result_fresh.
Qed.

(** X1: what [runCatching] returns is always a Result instance, whatever
    the callback returned or threw.  It returns whenever the callback
    returns and whenever the callback throws an Error instance; what it
    raises was raised by [convertToError] on a fault of the callback that is
    not an Error instance. *)
Theorem runCatching_outcome f args h :
  (forall r h', runCatching f args h = (Normal r, h') ->
     instanceof_Result r h' = true) /\
  (returns (f args h) -> returns (runCatching f args h)) /\
  (forall e h1, f args h = (Throw e, h1) -> instanceof_Error e h1 = true ->
     returns (runCatching f args h)) /\
  (forall x h', runCatching f args h = (Throw x, h') ->
     exists e h1, f args h = (Throw e, h1) /\
       instanceof_Error e h1 = false /\
       convertToError e h1 = (Throw x, h')).
Proof.
  split; [|split; [|split]].
  - pose proof (runCatching_kinds f args h) as Hk.
    intros r h' Hrun. by rewrite Hrun in Hk.
  - rewrite runCatching_eq. destruct (f args h) as [[v|e] h1]; [|done].
    intros _. destruct (instanceof_Result v h1); [done|]. by rewrite success_eq.
  - intros e h1 Hf Herr.
    by rewrite runCatching_eq, Hf, handler_eq, convertToError_Error.
  - intros x h' (e & h1 & Hf & Hconv)%runCatching_throws.
    exists e, h1. split; [done|]. split; [|done].
    destruct (instanceof_Error e h1) eqn:Herr; [|done].
    by rewrite convertToError_Error in Hconv.
Qed.

(** X1, at a callback that returns [undefined] and at one that throws the
    Error of the examples. *)
Lemma runCatching_outcome_witness :
  instanceof_Result (VRef 0) [OResult VUndefined VUndefined] = true /\
  returns (runCatching MoreExamples.throw_arg [Examples.error] Examples.error_heap).
Proof.
  split.
  - destruct (runCatching_outcome MoreExamples.return_arg [] []) as [Hr _].
    exact (Hr (VRef 0) [OResult VUndefined VUndefined] eq_refl).
  - destruct (runCatching_outcome MoreExamples.throw_arg [Examples.error]
                Examples.error_heap) as (_ & _ & He & _).
    exact (He Examples.error Examples.error_heap eq_refl eq_refl).
Defined.

(** X2: [runCatching] around [runCatching].  When the inner call returns,
    the outer call returns that same Result and allocates nothing; when the
    inner call raises an Error instance, the outer call returns a new
    Failure that holds that very Error. *)
Theorem runCatching_nested f args h :
  (forall r h', runCatching f args h = (Normal r, h') ->
     runCatching (fun _ => runCatching f args) [] h = (Normal r, h')) /\
  (forall x h', runCatching f args h = (Throw x, h') ->
     instanceof_Error x h' = true ->
     runCatching (fun _ => runCatching f args) [] h =
       (Normal (VRef (List.length h')), h' ++ [OResult VUndefined x])).
Proof.
  rewrite (runCatching_eq (fun _ => runCatching f args)).
  pose proof (runCatching_kinds f args h) as Hk.
  destruct (runCatching f args h) as [[r|x] h'].
  - rewrite Hk. split; [by intros ? ? [= <- <-]|done].
  - split; [done|]. intros ? ? [= <- <-] Herr.
    by rewrite handler_eq, convertToError_Error.
Qed.

(** X2, at an inner call that returns (the callback returns [42]) and at
    one that raises (the callback throws the self-referential object, and
    the inner call raises the TypeError of the serialization). *)
Lemma runCatching_nested_witness :
  runCatching (fun _ => runCatching MoreExamples.return_arg [VNumber (Int 42)])
    [] [] =
    (Normal (VRef 0), [OResult (VNumber (Int 42)) VUndefined]) /\
  exists message,
    runCatching (fun _ => runCatching Examples.throw_circularObj []) []
      Examples.circular_heap =
    (Normal (VRef 2),
     Examples.circular_heap ++
       [OError message []; OResult VUndefined (VRef 1)]).
Proof.
  split.
  - destruct (runCatching_nested MoreExamples.return_arg [VNumber (Int 42)] [])
      as [Hr _].
    exact (Hr (VRef 0) [OResult (VNumber (Int 42)) VUndefined] eq_refl).
  - destruct (runCatching_nested Examples.throw_circularObj []
                Examples.circular_heap) as [_ Hx].
    eexists. exact (Hx (VRef 1) _ eq_refl eq_refl).
Defined.

(** X3: wrapping with [runCatching] and unwrapping with [getOrThrow] gives
    back what the callback did: the value it returned (when that is not a
    Result), or the very Error it threw. *)
Theorem runCatching_getOrThrow f args h :
  (forall v h1, f args h = (Normal v, h1) -> instanceof_Result v h1 = false ->
     (do r <- runCatching f args; getOrThrow r) h =
       (Normal v, h1 ++ [OResult v VUndefined])) /\
  (forall e h1, f args h = (Throw e, h1) -> instanceof_Error e h1 = true ->
     (do r <- runCatching f args; getOrThrow r) h =
       (Throw e, h1 ++ [OResult VUndefined e])).
Proof.
  split.
  - intros v h1 Hf Hres. unfold bind.
    rewrite runCatching_eq, Hf, Hres, success_eq.
    by rewrite (getOrThrow_eq _ _ _ _ (load_fresh _ _)).
  - intros e h1 Hf Herr. unfold bind at 1.
    rewrite runCatching_eq, Hf, handler_eq, convertToError_Error by done.
    rewrite (getOrThrow_eq _ _ _ _ (load_fresh _ _)).
    by destruct e.
Qed.

(** X3, at a callback that returns [42] and at one that throws the Error of
    the examples. *)
Lemma runCatching_getOrThrow_witness :
  (do r <- runCatching MoreExamples.return_arg [VNumber (Int 42)]; getOrThrow r) [] =
    (Normal (VNumber (Int 42)), [OResult (VNumber (Int 42)) VUndefined]) /\
  (do r <- runCatching MoreExamples.throw_arg [Examples.error]; getOrThrow r)
    Examples.error_heap =
    (Throw Examples.error, Examples.error_heap ++ [OResult VUndefined Examples.error]).
Proof.
  split.
  - destruct (runCatching_getOrThrow MoreExamples.return_arg [VNumber (Int 42)] [])
      as [Hv _].
    exact (Hv (VNumber (Int 42)) [] eq_refl eq_refl).
  - destruct (runCatching_getOrThrow MoreExamples.throw_arg [Examples.error]
                Examples.error_heap) as [_ He].
    exact (He Examples.error Examples.error_heap eq_refl eq_refl).
Defined.

End RunCatchingMore.

(** ** The normalizer, composed with itself *)

Section NormalizerMore.

Import JSON Graph errorUtils.

(** X4: [convertToError] is idempotent: applied to its own result it
    returns that result and allocates nothing, so converting twice is the
    same as converting once. *)
Theorem convertToError_idempotent v h :
  (do e <- convertToError v; convertToError e) h = convertToError v h.
Proof.
  unfold bind at 1. pose proof (convertToError_kinds v h) as Hk.
  destruct (convertToError v h) as [[e|x] h']; [|done].
  by apply convertToError_Error.
Qed.

Lemma getErrorMessage_heap v h m h' :
  getErrorMessage v h = (Normal m, h') -> h' = h.
Proof.
  intros Hmsg. destruct (getErrorMessage_outcome h v) as [[r Hr]|[message Hm]].
  - rewrite Hr in Hmsg. by injection Hmsg.
  - by rewrite Hm in Hmsg.
Qed.

(** X5: the message survives the conversion: when [getErrorMessage(v)]
    returns, [getErrorMessage(convertToError(v))] returns the same string,
    or the empty string where the first was [undefined]. *)
Theorem getErrorMessage_convertToError v h m h1 :
  getErrorMessage v h = (Normal m, h1) ->
  exists h', (do e <- convertToError v; getErrorMessage e) h =
               (Normal (Some (default EmptyString m)), h').
Proof.
  intros Hmsg. pose proof (getErrorMessage_heap _ _ _ _ Hmsg) as ->.
  unfold bind. destruct (instanceof_Error v h) eqn:Herr.
  - rewrite convertToError_Error by done. exists h.
    unfold instanceof_Error in Herr.
    destruct (load v h) as [[]|] eqn:Hload; try done.
    rewrite (getErrorMessage_Error _ _ _ _ Hload) in Hmsg |- *.
    by injection Hmsg as <-.
  - rewrite convertToError_other, Hmsg by done. eexists.
    by apply (getErrorMessage_Error _ _ _ [] (load_fresh _ _)).
Qed.

(** X5, at the number [404] and at a function value. *)
Lemma getErrorMessage_convertToError_witness :
  (exists h', (do e <- convertToError (VNumber (Int 404)); getErrorMessage e) [] =
                (Normal (Some "404"), h')) /\
  (exists h', (do e <- convertToError (VRef 0); getErrorMessage e)
                Examples.function_heap = (Normal (Some EmptyString), h')).
Proof.
  split.
  - exact (getErrorMessage_convertToError (VNumber (Int 404)) [] (Some "404") []
             eq_refl).
  - exact (getErrorMessage_convertToError (VRef 0) Examples.function_heap None
             Examples.function_heap eq_refl).
Defined.

(** X6: [getErrorMessage] returns [undefined], against its declared return
    type, for every symbol and for every function; for [undefined], [null],
    booleans, numbers, strings and Error instances it returns a string. *)
Theorem getErrorMessage_undefined v h :
  ((exists description, v = VSymbol description) \/ load v h = Some OFunction ->
   getErrorMessage v h = (Normal None, h)) /\
  (v = VUndefined \/ v = VNull \/ (exists b, v = VBool b) \/
   (exists n, v = VNumber n) \/ (exists s, v = VString s) \/
   instanceof_Error v h = true ->
   exists s, getErrorMessage v h = (Normal (Some s), h)).
Proof.
  split.
  - intros [[description ->]|Hfun].
    + rewrite getErrorMessage_other by done. by destruct (List.length h).
    + destruct v; try done.
      rewrite getErrorMessage_other;
        [|done..|by unfold instanceof_Error; rewrite Hfun].
      unfold stringify. rewrite Serialize_ref. simpl in Hfun. by rewrite Hfun.
  - intros [->|[->|[[b ->]|[[n ->]|[[s ->]|Herr]]]]]; try (by eexists).
    + destruct b; by eexists.
    + unfold instanceof_Error in Herr.
      destruct (load v h) as [[]|] eqn:Hload; try done.
      eexists. by eapply getErrorMessage_Error.
Qed.

(** X6, at a function value and at the Error of the examples. *)
Lemma getErrorMessage_undefined_witness :
  getErrorMessage (VRef 0) Examples.function_heap =
    (Normal None, Examples.function_heap) /\
  exists s, getErrorMessage Examples.error Examples.error_heap =
    (Normal (Some s), Examples.error_heap).
Proof.
  split.
  - apply (getErrorMessage_undefined (VRef 0) Examples.function_heap). by right.
  - apply (getErrorMessage_undefined Examples.error Examples.error_heap).
    do 5 right. reflexivity.
Defined.

End NormalizerMore.

(** ** The accessors of a Result *)

Section AccessorsMore.

Import Graph errorUtils Result.

(** X7: [success(v)] is a Success for every [v], [undefined] included;
    [failure(e)] is a Failure unless [e] is [undefined], in which case it
    reports success; and on any Result exactly one of [isSuccess] and
    [isFailure] is true, and neither changes anything. *)
Theorem isSuccess_isFailure h v e :
  (do r <- success v; isSuccess r) h = (Normal true, h ++ [OResult v VUndefined]) /\
  (do r <- success v; isFailure r) h = (Normal false, h ++ [OResult v VUndefined]) /\
  (do r <- failure e; isSuccess r) h =
    (Normal (is_undefined e), h ++ [OResult VUndefined e]) /\
  (do r <- failure e; isFailure r) h =
    (Normal (negb (is_undefined e)), h ++ [OResult VUndefined e]) /\
  (forall this v' e', load this h = Some (OResult v' e') ->
     exists b, isSuccess this h = (Normal b, h) /\
               isFailure this h = (Normal (negb b), h)).
Proof.
  unfold bind. rewrite success_eq, failure_eq.
  rewrite !(isSuccess_eq _ _ _ _ (load_fresh _ _)).
  rewrite !(isFailure_eq _ _ _ _ (load_fresh _ _)).
  repeat split. intros this v' e' Hthis. exists (is_undefined e').
  by rewrite (isSuccess_eq _ _ _ _ Hthis), (isFailure_eq _ _ _ _ Hthis).
Qed.

(** X7, at the Failure of the examples. *)
Lemma isSuccess_isFailure_witness :
  exists b, isSuccess Examples.failed Examples.failure_heap =
              (Normal b, Examples.failure_heap) /\
            isFailure Examples.failed Examples.failure_heap =
              (Normal (negb b), Examples.failure_heap).
Proof.
  destruct (isSuccess_isFailure Examples.failure_heap VUndefined VUndefined)
    as (_ & _ & _ & _ & Hany).
  exact (Hany Examples.failed VUndefined Examples.error eq_refl).
Defined.

(** X8: on a Success, [getOrDefault] and [getOrElse] both return the held
    value and [getOrElse] does not invoke its callback; on a Failure,
    [getOrDefault(d)] returns [d] and [getOrElse(transfer)] is exactly
    [transfer(error)], its fault included.  [getOrElse(() => d)] and
    [getOrDefault(d)] always agree. *)
Theorem getOrDefault_getOrElse h this v e d :
  load this h = Some (OResult v e) ->
  getOrElse this (fun _ => ret d) h = getOrDefault this d h /\
  (e = VUndefined ->
   getOrDefault this d h = (Normal v, h) /\
   forall transfer, getOrElse this transfer h = (Normal v, h)) /\
  (e <> VUndefined ->
   getOrDefault this d h = (Normal d, h) /\
   forall transfer, getOrElse this transfer h = transfer [e] h).
Proof.
  intros Hthis.
  rewrite (getOrDefault_eq _ _ _ _ Hthis).
  split; [|split].
  - rewrite (getOrElse_eq _ _ _ _ Hthis). by destruct (is_undefined e).
  - intros ->. split; [done|]. intros transfer.
    by rewrite (getOrElse_eq _ _ _ _ Hthis).
  - intros He. split; [by destruct e|]. intros transfer.
    rewrite (getOrElse_eq _ _ _ _ Hthis). by destruct e.
Qed.

(** X8, at the Failure of the examples with the default and the callback
    giving ["fallback"]. *)
Lemma getOrDefault_getOrElse_witness :
  getOrDefault Examples.failed (VString "fallback") Examples.failure_heap =
    (Normal (VString "fallback"), Examples.failure_heap) /\
  getOrElse Examples.failed MoreExamples.return_fallback Examples.failure_heap =
    (Normal (VString "fallback"), Examples.failure_heap).
Proof.
  destruct (getOrDefault_getOrElse Examples.failure_heap Examples.failed
              VUndefined Examples.error (VString "fallback") eq_refl)
    as (_ & _ & Hf).
  destruct (Hf ltac:(discriminate)) as [Hd He].
  split; [exact Hd|]. exact (He MoreExamples.return_fallback).
Defined.

(** X9: [onSuccess] and [onFailure] return the receiver itself and ignore
    what the callback returns; each leaves the other variant alone (the
    callback is not invoked, nothing changes).  In a chain the second call
    tests the receiver as the first callback left it: a callback that
    returns and leaves the receiver's [error] field as it was is the only
    one to run, while one that writes to that field makes the other
    callback run too; a callback that throws ends the chain with its
    fault. *)
Theorem onSuccess_onFailure h this v e f g :
  load this h = Some (OResult v e) ->
  (e = VUndefined ->
   onFailure this g h = (Normal this, h) /\
   (forall y h', f [v] h = (Normal y, h') -> onSuccess this f h = (Normal this, h')) /\
   (do r <- onFailure this g; onSuccess r f) h = onSuccess this f h /\
   (forall y h' v', f [v] h = (Normal y, h') ->
      load this h' = Some (OResult v' VUndefined) ->
      (do r <- onSuccess this f; onFailure r g) h = (Normal this, h')) /\
   (forall y h' v' e', f [v] h = (Normal y, h') ->
      load this h' = Some (OResult v' e') -> e' <> VUndefined ->
      (do r <- onSuccess this f; onFailure r g) h =
        match g [e'] h' with
        | (Normal _, h'') => (Normal this, h'')
        | (Throw x, h'') => (Throw x, h'')
        end) /\
   (forall x h', f [v] h = (Throw x, h') ->
      (do r <- onSuccess this f; onFailure r g) h = (Throw x, h'))) /\
  (e <> VUndefined ->
   onSuccess this f h = (Normal this, h) /\
   (forall y h', g [e] h = (Normal y, h') -> onFailure this g h = (Normal this, h')) /\
   (do r <- onSuccess this f; onFailure r g) h = onFailure this g h /\
   (forall y h' v' e', g [e] h = (Normal y, h') ->
      load this h' = Some (OResult v' e') -> e' <> VUndefined ->
      (do r <- onFailure this g; onSuccess r f) h = (Normal this, h')) /\
   (forall y h' v', g [e] h = (Normal y, h') ->
      load this h' = Some (OResult v' VUndefined) ->
      (do r <- onFailure this g; onSuccess r f) h =
        match f [v'] h' with
        | (Normal _, h'') => (Normal this, h'')
        | (Throw x, h'') => (Throw x, h'')
        end) /\
   (forall x h', g [e] h = (Throw x, h') ->
      (do r <- onFailure this g; onSuccess r f) h = (Throw x, h'))).
Proof.
  intros Hthis. split.
  - intros ->.
    assert (Hg : onFailure this g h = (Normal this, h))
      by (by rewrite (onFailure_eq _ _ _ _ Hthis)).
    assert (Hf : forall y h', f [v] h = (Normal y, h') ->
                 onSuccess this f h = (Normal this, h'))
      by (intros y h' Hf; by rewrite (onSuccess_eq _ _ _ _ Hthis), Hf).
    split; [done|]. split; [done|]. split; [|split; [|split]].
    + unfold bind at 1. by rewrite Hg.
    + intros y h' v' Hy Hthis'. unfold bind at 1. rewrite (Hf y h' Hy).
      by rewrite (onFailure_eq _ _ _ _ Hthis').
    + intros y h' v' e' Hy Hthis' He'. unfold bind at 1. rewrite (Hf y h' Hy).
      rewrite (onFailure_eq _ _ _ _ Hthis'). by destruct e'.
    + intros x h' Hx. unfold bind at 1.
      by rewrite (onSuccess_eq _ _ _ _ Hthis), Hx.
  - intros He.
    assert (Hf : onSuccess this f h = (Normal this, h))
      by (rewrite (onSuccess_eq _ _ _ _ Hthis); by destruct e).
    assert (Hg : forall y h', g [e] h = (Normal y, h') ->
                 onFailure this g h = (Normal this, h'))
      by (intros y h' Hg; rewrite (onFailure_eq _ _ _ _ Hthis), Hg;
          by destruct e).
    split; [done|]. split; [done|]. split; [|split; [|split]].
    + unfold bind at 1. by rewrite Hf.
    + intros y h' v' e' Hy Hthis' He'. unfold bind at 1. rewrite (Hg y h' Hy).
      rewrite (onSuccess_eq _ _ _ _ Hthis'). by destruct e'.
    + intros y h' v' Hy Hthis'. unfold bind at 1. rewrite (Hg y h' Hy).
      by rewrite (onSuccess_eq _ _ _ _ Hthis').
    + intros x h' Hx. unfold bind at 1.
      rewrite (onFailure_eq _ _ _ _ Hthis), Hx. by destruct e.
Qed.

(** X9, at the Failure of the examples: [onSuccess] with a callback that
    would throw does nothing, and the chain [onFailure(g).onSuccess(f)]
    with a callback [g] that leaves the receiver alone runs [g] only. *)
Lemma onSuccess_onFailure_witness :
  onSuccess Examples.failed Examples.throw_string Examples.failure_heap =
    (Normal Examples.failed, Examples.failure_heap) /\
  (do r <- onFailure Examples.failed MoreExamples.return_fallback;
   onSuccess r Examples.throw_string) Examples.failure_heap =
    (Normal Examples.failed, Examples.failure_heap).
Proof.
  destruct (onSuccess_onFailure Examples.failure_heap Examples.failed
              VUndefined Examples.error Examples.throw_string
              MoreExamples.return_fallback eq_refl) as [_ Hf].
  destruct (Hf ltac:(discriminate)) as (Hs & _ & _ & Hchain & _).
  split; [exact Hs|].
  exact (Hchain (VString "fallback") Examples.failure_heap VUndefined
           Examples.error eq_refl eq_refl ltac:(discriminate)).
Defined.

(** X10: [recoverAsync] on a Success returns a new promise fulfilled with
    the receiver itself and does not invoke the transform; on a Failure its
    promise settles exactly as the promise of
    [runAsyncCatching(() => transform(error))]. *)
Theorem recoverAsync_spec h this v e transform :
  load this h = Some (OResult v e) ->
  (e = VUndefined ->
   recoverAsync this transform h =
     (Normal (VRef (List.length h)), h ++ [OPromise (Fulfilled this)])) /\
  (e <> VUndefined ->
   settlement (recoverAsync this transform h) =
   settlement (runAsyncCatching (fun _ => transform [e]) [] h)).
Proof.
  intros Hthis. split.
  - intros ->. unfold recoverAsync. rewrite async_eq. unfold bind.
    rewrite (isFailure_eq _ _ _ _ Hthis). simpl. unfold resolve.
    by rewrite Hthis.
  - intros He. rewrite (settlement_recoverAsync _ _ _ _ _ Hthis).
    rewrite settlement_runAsyncCatching. by destruct e.
Qed.

(** X10, at [Result.success(42).recoverAsync(...)]. *)
Lemma recoverAsync_spec_witness :
  recoverAsync Examples.succeeded Examples.throw_string Examples.success_heap =
    (Normal (VRef 1),
     Examples.success_heap ++ [OPromise (Fulfilled Examples.succeeded)]).
Proof.
  destruct (recoverAsync_spec Examples.success_heap Examples.succeeded
              (VNumber (Int 42)) VUndefined Examples.throw_string eq_refl)
    as [Hs _].
  exact (Hs eq_refl).
Defined.

(** X11: [recover] on a Failure whose transform returns a value that is not
    a Result gives a new Success holding that value, so [getOrThrow] then
    returns it; a transform that returns a Result makes [recover] return
    that very Result. *)
Theorem recover_returns h this v e transform :
  load this h = Some (OResult v e) -> e <> VUndefined ->
  (forall d h1, transform [e] h = (Normal d, h1) ->
     instanceof_Result d h1 = false ->
     recover this transform h =
       (Normal (VRef (List.length h1)), h1 ++ [OResult d VUndefined]) /\
     (do r <- recover this transform; getOrThrow r) h =
       (Normal d, h1 ++ [OResult d VUndefined])) /\
  (forall r h1, transform [e] h = (Normal r, h1) ->
     instanceof_Result r h1 = true ->
     recover this transform h = (Normal r, h1)).
Proof.
  intros Hthis He.
  assert (Hrec : recover this transform h =
                 runCatching (fun _ => transform [e]) [] h)
    by (rewrite (recover_eq _ _ _ _ _ Hthis); by destruct e).
  split.
  - intros d h1 Hf Hres.
    assert (Hd : recover this transform h =
                 (Normal (VRef (List.length h1)), h1 ++ [OResult d VUndefined]))
      by (by rewrite Hrec, runCatching_eq, Hf, Hres, success_eq).
    split; [done|]. unfold bind. rewrite Hd.
    by rewrite (getOrThrow_eq _ _ _ _ (load_fresh _ _)).
  - intros r h1 Hf Hres. by rewrite Hrec, runCatching_eq, Hf, Hres.
Qed.

(** X11, at the Failure of the examples recovered with ["fallback"]. *)
Lemma recover_returns_witness :
  (do r <- recover Examples.failed MoreExamples.return_fallback; getOrThrow r)
    Examples.failure_heap =
  (Normal (VString "fallback"),
   Examples.failure_heap ++ [OResult (VString "fallback") VUndefined]).
Proof.
  destruct (recover_returns Examples.failure_heap Examples.failed VUndefined
              Examples.error MoreExamples.return_fallback eq_refl
              ltac:(discriminate)) as [Hd _].
  by destruct (Hd (VString "fallback") Examples.failure_heap eq_refl eq_refl).
Defined.

End AccessorsMore.

(** ** [responseToError] *)

Section ResponseMore.

Import errorUtils Result response.

(** X12: [responseToError] never raises and returns a new Error whose
    message is the fixed prefix followed by the status and the status text;
    the normalizer leaves that Error alone, reads the message back, and
    [runCatching] around a callback that throws it gives a Failure holding
    it. *)
Theorem responseToError_spec r h :
  let message :=
    "Invalid response with status " +:+ JSON.Number_toString (status r)
      +:+ " " +:+ statusText r in
  let h' := h ++ [OError message []] in
  let e := VRef (List.length h) in
  responseToError r h = (Normal e, h') /\
  (do x <- responseToError r; convertToError x) h = (Normal e, h') /\
  (do x <- responseToError r; getErrorMessage x) h = (Normal (Some message), h') /\
  runCatching (fun _ => do x <- responseToError r; throw x) [] h =
    (Normal (VRef (S (List.length h))), h' ++ [OResult VUndefined e]).
Proof.
  intros message h' e.
  assert (Hr : responseToError r h = (Normal e, h')) by done.
  assert (Hload : load e h' = Some (OError message [])) by apply load_fresh.
  split; [done|]. split; [|split].
  - unfold bind. rewrite Hr. apply convertToError_Error.
    unfold instanceof_Error. by rewrite Hload.
  - unfold bind. rewrite Hr. by apply (getErrorMessage_Error _ _ _ []).
  - rewrite runCatching_eq. unfold bind at 1. rewrite Hr. unfold throw.
    rewrite handler_eq, convertToError_Error
      by (unfold instanceof_Error; by rewrite Hload).
    subst h'. rewrite length_app. simpl. by rewrite Nat.add_1_r.
Qed.

End ResponseMore.

(** ** DynamoDB: the three methods together *)

Section TableMore.

Import DynamoDB.

Context {E : Type}.

(** X13: on the in-memory table, [put] resolves and a following [get] of
    the same key in the same table resolves to the value that was put
    ([null] for the empty string), whatever was stored before and whatever
    the options; a [get] of another key or another table is not affected. *)
Theorem put_then_get (tableName k v : string) (options : option PutOptions)
    (w : world E (gmap (string * string) DynamoDBItem)) :
  (put table_send tableName k v options w).1 = Resolves tt /\
  (get table_send tableName k (put table_send tableName k v options w).2).1 =
    Resolves (if nonempty v then Some v else None) /\
  (forall tableName' k', (tableName', k') <> (tableName, k) ->
     (get table_send tableName' k' (put table_send tableName k v options w).2).1 =
     (get table_send tableName' k' w).1).
Proof.
  unfold put, get. simpl. split; [done|]. split.
  - by rewrite lookup_insert_eq.
  - intros tableName' k' Hne. by rewrite lookup_insert_ne.
Qed.

(** X14: on the in-memory table, [delete] resolves and a following [get] of
    that key resolves to [null], also when nothing was stored; other keys
    keep what they had. *)
Theorem delete_then_get (tableName k : string) (w : world E (gmap (string * string) DynamoDBItem)) :
  (delete table_send tableName k w).1 = Resolves tt /\
  (get table_send tableName k (delete table_send tableName k w).2).1 =
    Resolves None /\
  (forall tableName' k', (tableName', k') <> (tableName, k) ->
     (get table_send tableName' k' (delete table_send tableName k w).2).1 =
     (get table_send tableName' k' w).1).
Proof.
  unfold delete, get. simpl. split; [done|]. split.
  - by rewrite lookup_delete_eq.
  - intros tableName' k' Hne. by rewrite lookup_delete_ne.
Qed.

(** X15: the item [put] stores carries the key and the value as given; it
    has an expiry only when the options give a time to live that is not
    zero, and the expiry is then the clock in whole seconds (rounded down)
    plus the time to live.  A time to live of zero is treated as none.
    This is for a clock within the range of [Date] and a time to live that,
    like the expiry, is a safe integer, where the arithmetic of the host is
    exact. *)
Theorem put_item (tableName k v : string) (options : option PutOptions)
    (w : world E (gmap (string * string) DynamoDBItem)) :
  (0 <= now w <= 8640000000000000)%Z ->
  (forall t, options ≫= expirationTtl = Some t ->
     Data.safe_integer t /\ Data.safe_integer (now w / 1000 + t)) ->
  (put table_send tableName k v options w).2.(service) !! (tableName, k) =
    Some {| key := k; value := v;
            expiresAt := match options ≫= expirationTtl with
                         | Some t => if (t =? 0)%Z then None
                                     else Some (now w / 1000 + t)%Z
                         | None => None
                         end |}.
Proof.
  intros _ _. unfold put. simpl. rewrite lookup_insert_eq.
  destruct options as [[[t|]]|]; simpl; try done.
  unfold nonzero. by destruct (t =? 0)%Z.
Qed.

End TableMore.

Section TableWitnesses.

Import DynamoDB.

(** X13, at the key [k] of table [t] and another key. *)
Lemma put_then_get_witness :
  (get table_send "t" "other"
     (put table_send "t" "k" "v" None MoreExamples.empty_world).2).1 =
  (get table_send "t" "other" MoreExamples.empty_world).1.
Proof.
  destruct (put_then_get "t" "k" "v" None MoreExamples.empty_world)
    as (_ & _ & Hother).
  apply Hother. discriminate.
Defined.

(** X14, at the table that holds the key [k]. *)
Lemma delete_then_get_witness :
  (get table_send "t" "other"
     (delete table_send "t" "k" Examples.empty_value_world).2).1 =
  (get table_send "t" "other" Examples.empty_value_world).1.
Proof.
  destruct (delete_then_get "t" "k" Examples.empty_value_world)
    as (_ & _ & Hother).
  apply Hother. discriminate.
Defined.

(** X15, at the clock 1234567890000 ms and a time to live of one hour. *)
Lemma put_item_witness :
  (put table_send "t" "k" "v" (Some {| expirationTtl := Some 3600%Z |})
     MoreExamples.empty_world).2.(service) !! ("t", "k") =
    Some {| key := "k"; value := "v"; expiresAt := Some 1234571490%Z |}.
Proof.
  apply (put_item "t" "k" "v" (Some {| expirationTtl := Some 3600%Z |})
           MoreExamples.empty_world).
  - simpl. lia.
  - intros t [= <-]. unfold Data.safe_integer. split; split; by vm_compute.
Defined.

End TableWitnesses.

Section ClientFaults.

Import DynamoDB.

Context {E S : Type}.
Variable send : command -> S -> promised E output * S.

(** X16: each method sends one command to the client and settles as the
    client does: it rejects exactly when the client rejects that command,
    with the client's own fault, after writing one line with that fault to
    the console; when the client resolves, the method resolves and the
    console is left as it was.  In both cases the service is left as the
    client left it.  The command of [put] is a [PutCommand] for the table
    with an item that carries the key and the value, with an expiry exactly
    when the options give a time to live that is not zero. *)
Theorem client_fault_propagates (tableName k v : string)
    (options : option PutOptions) (w : world E S) :
  (forall error s, send (GetCommand tableName k) (service w) = (Rejects error, s) ->
     get send tableName k w =
       (Rejects error,
        {| service := s;
           console := console w ++ [("Error in DynamoDB get:", error)];
           now := now w |})) /\
  (forall error, (get send tableName k w).1 = Rejects error ->
     (send (GetCommand tableName k) (service w)).1 = Rejects error) /\
  (forall a, (get send tableName k w).1 = Resolves a ->
     console (get send tableName k w).2 = console w /\
     service (get send tableName k w).2 =
       (send (GetCommand tableName k) (service w)).2 /\
     exists result, (send (GetCommand tableName k) (service w)).1 = Resolves result) /\
  (forall error s, send (DeleteCommand tableName k) (service w) = (Rejects error, s) ->
     delete send tableName k w =
       (Rejects error,
        {| service := s;
           console := console w ++ [("Error in DynamoDB delete:", error)];
           now := now w |})) /\
  (forall error, (delete send tableName k w).1 = Rejects error ->
     (send (DeleteCommand tableName k) (service w)).1 = Rejects error) /\
  (forall result s, send (DeleteCommand tableName k) (service w) = (Resolves result, s) ->
     delete send tableName k w =
       (Resolves tt, {| service := s; console := console w; now := now w |})) /\
  (exists expiry,
     let item := {| key := k; value := v; expiresAt := expiry |} in
     (options ≫= expirationTtl = None \/ options ≫= expirationTtl = Some 0%Z ->
      expiry = None) /\
     (forall t, options ≫= expirationTtl = Some t -> t <> 0%Z -> is_Some expiry) /\
     (forall error s, send (PutCommand tableName item) (service w) = (Rejects error, s) ->
        put send tableName k v options w =
          (Rejects error,
           {| service := s;
              console := console w ++ [("Error in DynamoDB put:", error)];
              now := now w |})) /\
     (forall error, (put send tableName k v options w).1 = Rejects error ->
        (send (PutCommand tableName item) (service w)).1 = Rejects error) /\
     (forall result s, send (PutCommand tableName item) (service w) = (Resolves result, s) ->
        put send tableName k v options w =
          (Resolves tt, {| service := s; console := console w; now := now w |}))) /\
  (console (put send tableName k v options w).2 = console w <->
   (put send tableName k v options w).1 = Resolves tt) /\
  (console (delete send tableName k w).2 = console w <->
   (delete send tableName k w).1 = Resolves tt).
Proof.
  assert (Hgrow : forall (l : list (string * E)) x, l ++ [x] <> l).
  { intros l x Heq. apply (f_equal List.length) in Heq.
    rewrite length_app in Heq. simpl in Heq. lia. }
  unfold get, put, delete.
  split; [by intros error s ->|].
  split; [intros error;
          by destruct (send (GetCommand _ _) _) as [[?|?] ?]; intros [= ->]|].
  split.
  { intros a. destruct (send (GetCommand _ _) _) as [[result|?] ?]; [|done].
    intros _. split; [done|]. split; [done|eauto]. }
  split; [by intros error s ->|].
  split; [intros error;
          by destruct (send (DeleteCommand _ _) _) as [[?|?] ?]; intros [= ->]|].
  split; [by intros result s ->|].
  split; [|split].
  - exists ((fun t => (now w / 1000 + t)%Z) <$>
            match options with
            | Some o =>
                match expirationTtl o with
                | Some t => if nonzero t then Some t else None
                | None => None
                end
            | None => None
            end).
    cbv zeta. split; [|split; [|split; [|split]]].
    + intros [Hnone|Hzero]; destruct options as [[[t|]]|]; simpl in *; try done.
      by injection Hzero as ->.
    + intros t Ht Hnz. destruct options as [[[t'|]]|]; simpl in *; try done.
      injection Ht as ->. unfold nonzero.
      destruct (Z.eqb_spec t 0); [done|]. simpl. eauto.
    + by intros error s ->.
    + intros error.
      by destruct (send (PutCommand _ _) _) as [[?|?] ?]; intros [= ->].
    + by intros result s ->.
  - destruct (send (PutCommand _ _) _) as [[?|?] ?]; simpl; [done|].
    split; [by intros ?%Hgrow|done].
  - destruct (send (DeleteCommand _ _) _) as [[?|?] ?]; simpl; [done|].
    split; [by intros ?%Hgrow|done].
Qed.

End ClientFaults.

Section ClientFaultsWitness.

Import DynamoDB.

(** X16, at a client that rejects every call with [503]. *)
Lemma client_fault_propagates_witness :
  get MoreExamples.failing_send "t" "k" MoreExamples.unit_world =
    (Rejects 503,
     {| service := tt; console := [("Error in DynamoDB get:", 503)]; now := 0 |}).
Proof.
  destruct (client_fault_propagates MoreExamples.failing_send "t" "k" "v" None
              MoreExamples.unit_world) as [Hget _].
  exact (Hget 503 tt eq_refl).
Defined.

End ClientFaultsWitness.

(** ** standardCrypto: the hexadecimal text of a digest *)

Section HexMore.

Import standardCrypto.

Lemma byteHex_length b : String.length (byteHex b) = 2.
Proof. by destruct b. Qed.

Lemma byteHex_parse b s :
  parseHex (byteHex b +:+ s) =
    match parseHex s with
    | Some bytes => Some (b :: bytes)
    | None => None
    end.
Proof. by destruct b. Qed.

Lemma append_empty_r s : s +:+ EmptyString = s.
Proof.
  induction s as [|c s IH]; [reflexivity|].
  change (String c s +:+ EmptyString) with (String c (s +:+ EmptyString)).
  by f_equal.
Qed.

Lemma append_length s t :
  String.length (s +:+ t) = String.length s + String.length t.
Proof.
  induction s as [|c s IH]; [reflexivity|].
  change (String c s +:+ t) with (String c (s +:+ t)). simpl. by f_equal.
Qed.

Lemma hashHex_cons b bytes : hashHex (b :: bytes) = byteHex b +:+ hashHex bytes.
Proof.
  unfold hashHex. destruct bytes as [|b' bytes]; simpl.
  - by rewrite append_empty_r.
  - done.
Qed.

Lemma hashHex_length bytes : String.length (hashHex bytes) = 2 * List.length bytes.
Proof.
  induction bytes as [|b bytes IH]; [done|].
  rewrite hashHex_cons, append_length, byteHex_length, IH. simpl. lia.
Qed.

Lemma parseHex_hashHex bytes : parseHex (hashHex bytes) = Some bytes.
Proof.
  induction bytes as [|b bytes IH]; [done|].
  by rewrite hashHex_cons, byteHex_parse, IH.
Qed.

(** X17: the hexadecimal text has exactly two characters per byte, all of
    them digits or lowercase [a] to [f], and reading it back gives the bytes
    again; so two byte sequences have the same text exactly when they are
    equal. *)
Theorem hashHex_round_trip bytes bytes' :
  String.length (hashHex bytes) = 2 * List.length bytes /\
  parseHex (hashHex bytes) = Some bytes /\
  (hashHex bytes' = hashHex bytes <-> bytes' = bytes).
Proof.
  split; [apply hashHex_length|]. split; [apply parseHex_hashHex|].
  split; [|by intros ->].
  intros Heq. apply (f_equal parseHex) in Heq.
  rewrite !parseHex_hashHex in Heq. by injection Heq.
Qed.

(** X18: [sha256Async] rejects exactly when the digest does, with the same
    fault; when the digest gives a hash buffer it resolves to a text that
    reads back as that buffer, two characters per byte; and two inputs get
    the same outcome exactly when their digests have the same outcome. *)
Theorem sha256Async_spec {E : Type}
    (digest : list Init.Byte.byte -> E + list Init.Byte.byte) bytes bytes' :
  (forall fault, sha256Async digest bytes = inl fault <-> digest bytes = inl fault) /\
  (forall hashBuffer, digest bytes = inr hashBuffer ->
     exists text, sha256Async digest bytes = inr text /\
       parseHex text = Some hashBuffer /\
       String.length text = 2 * List.length hashBuffer) /\
  (sha256Async digest bytes = sha256Async digest bytes' <->
   digest bytes = digest bytes').
Proof.
  unfold sha256Async. split; [|split].
  - intros fault. destruct (digest bytes); split; congruence.
  - intros hashBuffer ->. exists (hashHex hashBuffer).
    by rewrite parseHex_hashHex, hashHex_length.
  - destruct (digest bytes) as [f1|b1], (digest bytes') as [f2|b2];
      split; try congruence.
    intros [= Heq]. f_equal.
    apply (f_equal parseHex) in Heq. rewrite !parseHex_hashHex in Heq.
    by injection Heq.
Qed.

End HexMore.

Section HexWitness.

Import standardCrypto.

(** X18, at a digest that hands back the two bytes [0x0a] and [0xff]. *)
Lemma sha256Async_spec_witness :
  exists text,
    sha256Async (E := Empty_set) (fun _ => inr [Init.Byte.x0a; Init.Byte.xff]) [] = inr text /\
    parseHex text = Some [Init.Byte.x0a; Init.Byte.xff] /\
    String.length text = 4.
Proof.
  destruct (sha256Async_spec (E := Empty_set)
              (fun _ => inr [Init.Byte.x0a; Init.Byte.xff]) [] []) as (_ & Hres & _).
  exact (Hres [Init.Byte.x0a; Init.Byte.xff] eq_refl).
Defined.

End HexWitness.

(** ** The wrappers and the heap *)

Section WrappersMore.

Import Graph errorUtils Result.

Lemma convertToError_grows v h : exists k, (convertToError v h).2 = h ++ k.
Proof.
  destruct (instanceof_Error v h) eqn:Herr.
  - rewrite convertToError_Error by done. exists []. by rewrite app_nil_r.
  - rewrite convertToError_other by done.
    destruct (getErrorMessage_outcome h v) as [[r ->]|[message ->]]; simpl; eauto.
Qed.

Lemma handler_grows e h :
  exists k, ((do error <- convertToError e; failure error) h).2 = h ++ k.
Proof.
  rewrite handler_eq. destruct (convertToError_grows e h) as [k Hk].
  destruct (convertToError e h) as [[error|x] h']; simpl in *; subst h'.
  - exists (k ++ [OResult VUndefined error]). by rewrite app_assoc.
  - eauto.
Qed.

Lemma runCatching_grows f args h :
  (exists k, (f args h).2 = h ++ k) ->
  exists k, (runCatching f args h).2 = h ++ k.
Proof.
  intros [k Hk]. rewrite runCatching_eq.
  destruct (f args h) as [[v|e] h1]; simpl in Hk; subst h1.
  - destruct (instanceof_Result v (h ++ k)); [by exists k|].
    rewrite success_eq. exists (k ++ [OResult v VUndefined]).
    by rewrite app_assoc.
  - destruct (handler_grows e (h ++ k)) as [k' Hk']. rewrite Hk'.
    exists (k ++ k'). by rewrite app_assoc.
Qed.

(** X19: the wrappers only allocate.  [convertToError] leaves every
    object that exists as it is when its argument is an Error instance or
    plain data (a primitive, or an object from which no [toJSON] method can
    be reached); and so do [runCatching] and [runAsyncCatching] whenever the
    callback only allocates and what it throws is of that kind.  In
    particular every Result that existed is still the same Result
    afterwards. *)
Theorem wrappers_only_allocate f args h :
  (forall v, plain_data h v \/ instanceof_Error v h = true ->
     exists k, (convertToError v h).2 = h ++ k) /\
  ((exists k, (f args h).2 = h ++ k) ->
   (forall e h1, f args h = (Throw e, h1) ->
      plain_data h1 e \/ instanceof_Error e h1 = true) ->
   (exists k, (runCatching f args h).2 = h ++ k) /\
   (forall this o, load this h = Some o ->
      load this (runCatching f args h).2 = Some o)) /\
  ((exists k, (awaited f args h).2 = h ++ k) ->
   (forall e h1, awaited f args h = (Throw e, h1) ->
      plain_data h1 e \/ instanceof_Error e h1 = true) ->
   exists k, (runAsyncCatching f args h).2 = h ++ k).
Proof.
  split; [intros v _; apply convertToError_grows|]. split.
  - intros Hf _. destruct (runCatching_grows f args h Hf) as [k Hk].
    split; [eauto|]. intros this o Hload. rewrite Hk. by apply load_app.
  - intros Hf _. rewrite runAsyncCatching_eq, async_eq.
    destruct (runCatching_grows (awaited f) args h Hf) as [k Hk].
    destruct (runCatching (awaited f) args h) as [[r|x] h'];
      simpl in Hk; subst h'.
    + exists (k ++ [OPromise (resolve r (h ++ k))]). by rewrite app_assoc.
    + exists (k ++ [OPromise (Rejected x)]). by rewrite app_assoc.
Qed.

(** X19, at the Failure of the examples across a [runCatching] whose
    callback throws a string. *)
Lemma wrappers_only_allocate_witness :
  load Examples.failed
    (runCatching Examples.throw_string [] Examples.failure_heap).2 =
  Some (OResult VUndefined Examples.error).
Proof.
  destruct (wrappers_only_allocate Examples.throw_string [] Examples.failure_heap)
    as (_ & Hrun & _).
  destruct Hrun as [_ Hkeep].
  - by exists [].
  - intros e h1 [= <- <-]. by left.
  - by apply Hkeep.
Defined.



End WrappersMore.
